(** * Meme video scheduler: schedule calculator, pending queue, upload orchestrator

    Shallow embedding of [scheduler.js] (calculateSchedule, getPendingVideos,
    deleteVideo, uploadAllPending) and of the part of [uploader.js] it calls
    (uploadVideo), with the properties of the specification stated over it. *)

From Stdlib Require Import ZArith Lia String Ascii List Sorted DecimalString.
From stdpp Require Import base decidable option list strings gmap.

Local Open Scope Z_scope.

(** ** JavaScript [Date] in UTC

    A [Date] is its time value: milliseconds since 1970-01-01T00:00:00Z, an
    integer.  The functions below are the abstract operations of ECMA-262
    (section "Date Objects") that the UTC getters and setters are defined by.
    Time values of wall-clock dates are far inside the range on which
    [TimeClip] is the identity, and far below 2^53, so neither the clipping
    nor floating-point rounding is represented. *)

Module JSDate.

Definition msPerSecond : Z := 1000.
Definition msPerMinute : Z := 60000.
Definition msPerHour : Z := 3600000.
Definition msPerDay : Z := 86400000.

Definition Day (t : Z) : Z := t / msPerDay.
Definition TimeWithinDay (t : Z) : Z := t mod msPerDay.

Definition DaysInYear (y : Z) : Z :=
  if negb (y mod 4 =? 0) then 365
  else if negb (y mod 100 =? 0) then 366
  else if negb (y mod 400 =? 0) then 365
  else 366.

Definition DayFromYear (y : Z) : Z :=
  365 * (y - 1970) + (y - 1969) / 4 - (y - 1901) / 100 + (y - 1601) / 400.

(** The largest year whose first day is not after [t]: an estimate from the
    mean length of a Gregorian year, corrected by at most one. *)
Definition YearFromTime (t : Z) : Z :=
  let d := Day t in
  let y := 1970 + (d * 400) / 146097 in
  if DayFromYear (y + 1) <=? d then y + 1
  else if d <? DayFromYear y then y - 1
  else y.

Definition InLeapYear (t : Z) : Z :=
  if DaysInYear (YearFromTime t) =? 366 then 1 else 0.

Definition DayWithinYear (t : Z) : Z := Day t - DayFromYear (YearFromTime t).

(** Number of days of the year before the first day of month [m] (0 = January):
    the boundaries of the tables of MonthFromTime and DateFromTime. *)
Definition daysBeforeMonth (m leap : Z) : Z :=
  match m with
  | 0 => 0
  | 1 => 31
  | 2 => 59 + leap
  | 3 => 90 + leap
  | 4 => 120 + leap
  | 5 => 151 + leap
  | 6 => 181 + leap
  | 7 => 212 + leap
  | 8 => 243 + leap
  | 9 => 273 + leap
  | 10 => 304 + leap
  | _ => 334 + leap
  end.

Definition MonthFromTime (t : Z) : Z :=
  let d := DayWithinYear t in
  let l := InLeapYear t in
  if d <? 31 then 0
  else if d <? 59 + l then 1
  else if d <? 90 + l then 2
  else if d <? 120 + l then 3
  else if d <? 151 + l then 4
  else if d <? 181 + l then 5
  else if d <? 212 + l then 6
  else if d <? 243 + l then 7
  else if d <? 273 + l then 8
  else if d <? 304 + l then 9
  else if d <? 334 + l then 10
  else 11.

Definition DateFromTime (t : Z) : Z :=
  DayWithinYear t - daysBeforeMonth (MonthFromTime t) (InLeapYear t) + 1.

Definition HourFromTime (t : Z) : Z := (t / msPerHour) mod 24.
Definition MinFromTime (t : Z) : Z := (t / msPerMinute) mod 60.
Definition SecFromTime (t : Z) : Z := (t / msPerSecond) mod 60.
Definition msFromTime (t : Z) : Z := t mod msPerSecond.

Definition MakeTime (hour min sec ms : Z) : Z :=
  hour * msPerHour + min * msPerMinute + sec * msPerSecond + ms.

Definition MakeDay (year month date : Z) : Z :=
  let ym := year + month / 12 in
  let mn := month mod 12 in
  let leap := if DaysInYear ym =? 366 then 1 else 0 in
  DayFromYear ym + daysBeforeMonth mn leap + date - 1.

Definition MakeDate (day time : Z) : Z := day * msPerDay + time.

(** The methods of [Date.prototype] used by the scheduler. *)
Definition getUTCHours (t : Z) : Z := HourFromTime t.
Definition getUTCMinutes (t : Z) : Z := MinFromTime t.
Definition getUTCSeconds (t : Z) : Z := SecFromTime t.
Definition getUTCMilliseconds (t : Z) : Z := msFromTime t.
Definition getUTCDate (t : Z) : Z := DateFromTime t.

Definition setUTCDate (t date : Z) : Z :=
  MakeDate (MakeDay (YearFromTime t) (MonthFromTime t) date) (TimeWithinDay t).

Definition setUTCHours (t hour min sec ms : Z) : Z :=
  MakeDate (Day t) (MakeTime hour min sec ms).

End JSDate.

Import JSDate.

(** ** Configuration ([CONFIG] of scheduler.js) *)

(** [path.join] of a normalised directory and a single path segment. *)
Definition path_join (dir name : string) : string := dir +:+ "/" +:+ name.

(** [CONFIG.peakHoursEST.start]: 6:00 PM EST. *)
Definition peakHoursEST_start : Z := 18.

(** [CONFIG.gapMinutes]. *)
Definition gapMinutes : Z := 30.

(** [CONFIG.outputDir]; [dirname] is [__dirname], the directory of the script. *)
Definition outputDir (dirname : string) : string := path_join dirname "output".

(** ** calculateSchedule

    [clock] is the system clock as the function reads it: [clock 0] is
    [new Date()] at entry, [clock (S i)] is the [Date.now()] of iteration [i]. *)

Definition estOffset : Z := -5.

(** JavaScript [%]: the remainder has the sign of the dividend. *)
Definition js_rem (a b : Z) : Z := Z.rem a b.

(** [Math.floor (a / b)] on integers. *)
Definition floor_div (a b : Z) : Z := a / b.

(** [Math.ceil (a / b)] on integers, [b] positive. *)
Definition ceil_div (a b : Z) : Z := - ((- a) / b).

(** The value of [publishTime] after [setUTCHours] in iteration [i], before
    the minimum-lead check. *)
Definition nominalSlot (now : Z) (scheduleForTomorrow : bool) (i : Z) : Z :=
  let publishTime := now in
  let publishTime :=
    if scheduleForTomorrow
    then setUTCDate publishTime (getUTCDate publishTime + 1)
    else publishTime in
  let targetESTHour := peakHoursEST_start in
  let slotMinutes := i * gapMinutes in
  let targetUTCHour :=
    js_rem (targetESTHour - estOffset + floor_div slotMinutes 60) 24 in
  let targetUTCMinutes := js_rem slotMinutes 60 in
  setUTCHours publishTime targetUTCHour targetUTCMinutes 0 0.

(** One iteration of the loop: the pushed [publishTime]. *)
Definition slotAt (now : Z) (scheduleForTomorrow : bool) (dateNow : Z) (i : Z) : Z :=
  let publishTime := nominalSlot now scheduleForTomorrow i in
  let minTime := dateNow + 15 * 60 * 1000 in
  if publishTime <? minTime
  then setUTCDate publishTime (getUTCDate publishTime + 1)
  else publishTime.

(** [estHour] and [scheduleForTomorrow] of calculateSchedule, as functions of
    the [now] they are computed from. *)
Definition estHour (now : Z) : Z :=
  let utcHour := getUTCHours now in
  js_rem (utcHour + estOffset + 24) 24.

Definition scheduleForTomorrow (now : Z) : bool :=
  peakHoursEST_start <=? estHour now.

Definition calculateSchedule (clock : nat -> Z) (count : nat) : list Z :=
  let now := clock 0%nat in
  let peakEnd := peakHoursEST_start + ceil_div (Z.of_nat count * gapMinutes) 60 in
  map (fun i : nat =>
         slotAt now (scheduleForTomorrow now) (clock (S i)) (Z.of_nat i))
      (seq 0 count).

(** ** Strings *)

(** [s.startsWith(prefix)]. *)
Fixpoint startsWith (s prefix : string) : bool :=
  match prefix with
  | EmptyString => true
  | String a prefix' =>
      match s with
      | EmptyString => false
      | String b s' => Ascii.eqb a b && startsWith s' prefix'
      end
  end.

(** [s.endsWith(suffix)]: the last [suffix.length] characters of [s] are [suffix]. *)
Definition endsWith (s suffix : string) : bool :=
  let n := String.length s in
  let k := String.length suffix in
  (k <=? n)%nat && String.eqb (substring (n - k) k s) suffix.

(** What is left of [s] after the leading [prefix], if [s] starts with it. *)
Fixpoint strip_prefix (prefix s : string) : option string :=
  match prefix with
  | EmptyString => Some s
  | String a prefix' =>
      match s with
      | EmptyString => None
      | String b s' => if Ascii.eqb a b then strip_prefix prefix' s' else None
      end
  end.

(** ** Arrays *)

(** [Array.prototype.sort] with a comparator: a stable sort, so its result is
    that of inserting the elements, from the last to the first, each before
    the first element it does not compare greater than. *)
Fixpoint js_insert {A} (compare : A -> A -> Z) (x : A) (l : list A) : list A :=
  match l with
  | [] => [x]
  | y :: l' =>
      if compare x y <=? 0 then x :: y :: l' else y :: js_insert compare x l'
  end.

Definition js_sort {A} (compare : A -> A -> Z) (l : list A) : list A :=
  foldr (js_insert compare) [] l.

(** ** Exceptions *)

Inductive js_error := Error (message : string).

Definition message (e : js_error) : string := let 'Error m := e in m.

Inductive completion (A : Type) :=
  | Return (a : A)
  | Throw (e : js_error).
Arguments Return {A} a.
Arguments Throw {A} e.

(** ** The queue storage location

    The file system as the scheduler observes it: the directory
    [CONFIG.outputDir] is missing, or it is there and holds regular files,
    each under its entry name with its modification time in milliseconds.
    A path [outputDir/name] denotes the entry [name]; no other path exists.
    The process is the only one that touches the directory while it runs.
    Whether a file that is there can be removed is for the environment to
    say (see [unlinkFault]). *)

Inductive storage :=
  | Missing
  | Present (entries : gmap string Z).

(** The outcome of the body of the [try] of uploadVideo, which the platform,
    the credentials on disk and the random choice of generateMetadata decide:
    no authorised client (nothing is sent), or the answer of
    [youtube.videos.insert].  [Inserted] carries the identifier of the answer
    and the title that was sent, [metadata.snippet.title]. *)
Inductive insert_outcome :=
  | NotAuthorized (e : js_error)
  | Inserted (videoId : string) (title : string)
  | Rejected (e : js_error).

(** Effects on the outside world, in the order they happen. *)
Inductive event :=
  | EvInsert (videoPath : string) (publishAt : Z) (outcome : insert_outcome)
  | EvUnlink (path : string).

Record world := {
  disk : storage;
  trace : list event
}.

(** The object uploadVideo returns; its [success] field is always [true],
    and [videoUrl] and [studioUrl] are built from [videoId]. *)
Record upload_result := {
  videoId : string;
  title : string;
  publishAt : Z
}.

(** The objects uploadAllPending puts in its result array. *)
Inductive publish_result :=
  | Uploaded (result : upload_result) (videoPath : string) (scheduledFor : Z)
  | Failed (error : string) (videoPath : string)
  | Preview (videoPath : string) (scheduledFor : option Z).

(** The [success] field of a result; [None] where the object has none. *)
Definition success (r : publish_result) : option bool :=
  match r with
  | Uploaded _ _ _ => Some true
  | Failed _ _ => Some false
  | Preview _ _ => None
  end.

Definition videoPath (r : publish_result) : string :=
  match r with
  | Uploaded _ p _ => p
  | Failed _ p => p
  | Preview p _ => p
  end.

Section Scheduler.

(** [__dirname]. *)
Variable dirname : string.

(** The platform: what an upload attempt yields, given everything that
    happened before, the file and the requested publication time. *)
Variable platform : list event -> string -> Z -> insert_outcome.

(** What [fs.unlinkSync] throws for a file that is there (EACCES, EBUSY,
    EROFS, ...), given everything that happened before; [None] when the
    removal goes through. *)
Variable unlinkFault : list event -> string -> option js_error.

(** *** [fs] *)

Definition entry_of (path : string) : option string :=
  strip_prefix (outputDir dirname +:+ "/") path.

Definition existsSync (s : storage) (path : string) : bool :=
  match s with
  | Missing => false
  | Present entries =>
      if String.eqb path (outputDir dirname) then true
      else match entry_of path with
           | Some name => bool_decide (is_Some (entries !! name))
           | None => false
           end
  end.

(** Entry names of [CONFIG.outputDir], in the order the directory yields them.
    Only called once the directory is known to exist. *)
Definition readdirSync (s : storage) : list string :=
  match s with
  | Missing => []
  | Present entries => (map_to_list entries).*1
  end.

(** [fs.statSync(path).mtime] as a number.  Only called on paths that
    [readdirSync] produced, which exist; the 0 is never reached there. *)
Definition statSync_mtime (s : storage) (path : string) : Z :=
  match s with
  | Missing => 0
  | Present entries =>
      match entry_of path with
      | Some name => default 0 (entries !! name)
      | None => 0
      end
  end.

(** [fs.unlinkSync], [tr] being what happened before: removes a file unless
    the environment refuses, throws on anything else. *)
Definition unlinkSync (tr : list event) (s : storage) (path : string)
  : completion storage :=
  match s with
  | Missing => Throw (Error "ENOENT")
  | Present entries =>
      match entry_of path with
      | Some name =>
          if bool_decide (is_Some (entries !! name))
          then match unlinkFault tr path with
               | Some e => Throw e
               | None => Return (Present (delete name entries))
               end
          else Throw (Error "ENOENT")
      | None =>
          if String.eqb path (outputDir dirname)
          then Throw (Error "EPERM") else Throw (Error "ENOENT")
      end
  end.

(** *** getPendingVideos *)

Definition getPendingVideos (s : storage) : list string :=
  if negb (existsSync s (outputDir dirname)) then []
  else
    js_sort (fun a b => statSync_mtime s a - statSync_mtime s b)
      ((fun f => path_join (outputDir dirname) f) <$>
         filter (fun f => endsWith f ".mp4" = true) (readdirSync s)).

(** *** deleteVideo *)

Definition deleteVideo (w : world) (videoPath : string) : completion world :=
  if existsSync (disk w) videoPath then
    match unlinkSync (trace w) (disk w) videoPath with
    | Return s' => Return {| disk := s'; trace := trace w ++ [EvUnlink videoPath] |}
    | Throw e => Throw e
    end
  else Return w.

(** *** uploadVideo (uploader.js)

    The file must exist; then the [try] block runs, whose [catch] logs and
    rethrows.  The scheduler always passes [privacyStatus: 'private'] and
    the slot as [publishAt]; the slot is kept as a time value. *)
Definition uploadVideo (w : world) (videoPath : string) (publishAt : Z)
  : completion upload_result * world :=
  if negb (existsSync (disk w) videoPath)
  then (Throw (Error ("Video file not found: " +:+ videoPath)), w)
  else
    match platform (trace w) videoPath publishAt with
    | NotAuthorized e => (Throw e, w)
    | Inserted id ttl as o =>
        (Return {| videoId := id; title := ttl; publishAt := publishAt |},
         {| disk := disk w; trace := trace w ++ [EvInsert videoPath publishAt o] |})
    | Rejected e as o =>
        (Throw e,
         {| disk := disk w; trace := trace w ++ [EvInsert videoPath publishAt o] |})
    end.

(** *** uploadAllPending *)

(** The body of the upload loop for item [i].  [schedule[i]] is read before
    the [try]; reading [toISOString] of a missing slot would throw inside it. *)
Definition uploadStep (schedule : list Z) (i : nat) (videoPath : string)
    (w : world) (results : list publish_result) : list publish_result * world :=
  match schedule !! i with
  | None =>
      (results ++ [Failed "Cannot read properties of undefined (reading 'toISOString')" videoPath], w)
  | Some publishTime =>
      match uploadVideo w videoPath publishTime with
      | (Return result, w1) =>
          let results := results ++ [Uploaded result videoPath publishTime] in
          match deleteVideo w1 videoPath with
          | Return w2 => (results, w2)
          | Throw error => (results ++ [Failed (message error) videoPath], w1)
          end
      | (Throw error, w1) =>
          (results ++ [Failed (message error) videoPath], w1)
      end
  end.

(** The loop [for (let i = 0; i < pendingVideos.length; i++)], from index [i]
    on, [todo] being the items not visited yet. *)
Fixpoint uploadLoop (schedule : list Z) (i : nat) (todo : list string)
    (w : world) (results : list publish_result) : list publish_result * world :=
  match todo with
  | [] => (results, w)
  | videoPath :: rest =>
      let '(results', w') := uploadStep schedule i videoPath w results in
      uploadLoop schedule (S i) rest w' results'
  end.

Definition uploadAllPending (clock : nat -> Z) (dryRun : bool) (w : world)
  : list publish_result * world :=
  let pendingVideos := getPendingVideos (disk w) in
  if (length pendingVideos =? 0)%nat then ([], w)
  else
    let schedule := calculateSchedule clock (length pendingVideos) in
    if dryRun
    then (imap (fun i p => Preview p (schedule !! i)) pendingVideos, w)
    else uploadLoop schedule 0 pendingVideos w [].

End Scheduler.

(** The environment in which every removal of a file that is there goes
    through. *)
Definition noFault : list event -> string -> option js_error := fun _ _ => None.

(** ** main, the [upload] command *)

(** How the [case 'upload'] of main ends: with [process.exit(code)], or with
    the line that reports [ok] uploaded and [fail] failed results. *)
Inductive upload_outcome :=
  | ExitWith (code : Z)
  | Summary (ok fail : nat).

(** [r.success] as a condition: a missing field is falsy. *)
Definition success_truthy (r : publish_result) : bool :=
  match success r with
  | Some true => true
  | _ => false
  end.

(** [isConfigured] is [uploader.isConfigured()], whether client_secrets.json
    is there. *)
Definition main_upload (dirname : string)
    (platform : list event -> string -> Z -> insert_outcome)
    (unlinkFault : list event -> string -> option js_error)
    (isConfigured : bool) (clock : nat -> Z) (dryRun : bool) (w : world)
  : upload_outcome * world :=
  if negb isConfigured then (ExitWith 1, w)
  else
    let '(results, w') := uploadAllPending dirname platform unlinkFault clock dryRun w in
    let ok := length (filter (fun r => success_truthy r = true) results) in
    let fail := length (filter (fun r => negb (success_truthy r) = true) results) in
    (Summary ok fail, w').

(** ** parseArgs

    [argv] is [process.argv].  [parseInt] applied to a string is a parameter;
    its result [None] stands for [NaN]. *)

(** [Array.prototype.find] with a callback that also looks at the index. *)
Fixpoint js_find_from {A} (pred : A -> nat -> bool) (i : nat) (l : list A) : option A :=
  match l with
  | [] => None
  | x :: l' => if pred x i then Some x else js_find_from pred (S i) l'
  end.

Definition js_find {A} (pred : A -> nat -> bool) (l : list A) : option A :=
  js_find_from pred 0 l.

Record parsed_args := {
  args_command : string;
  args_count : option Z;
  args_dryRun : bool
}.

Definition parseArgs (parseInt : string -> option Z) (argv : list string) : parsed_args :=
  let args := drop 2 argv in
  let command :=
    match args !! 0%nat with
    | Some c => if String.eqb c EmptyString then "help" else c
    | None => "help"
    end in
  {| args_command := command;
     args_count :=
       match js_find (fun _ i =>
                        match i with
                        | O => false
                        | S j => bool_decide (args !! j = Some "--count")
                        end) args with
       | Some v => if String.eqb v EmptyString then Some 6 else parseInt v
       | None => Some 6
       end;
     args_dryRun := bool_decide ("--dry-run" ∈ args) |}.

(** ** The producer's helpers (generateSingleVideo)

    [Math.floor(Math.random() * n)] is a parameter [pick n]; a value of
    [Math.random] lies in [0, 1), so [pick n < n] for positive [n]. *)

(** [s.includes(sub)]. *)
Fixpoint includes (s sub : string) : bool :=
  startsWith s sub ||
  match s with
  | EmptyString => false
  | String _ s' => includes s' sub
  end.

(** *** getRandomFileFromDir

    [listing] is the directory as [fs] shows it: [None] when [dirPath] does
    not exist, else the names [readdirSync] yields.  [toLowerCase] is
    [String.prototype.toLowerCase]. *)
Definition getRandomFileFromDir (toLowerCase : string -> string) (pick : nat -> nat)
    (listing : option (list string)) (dirPath : string) (extensions : list string)
  : completion (option string) :=
  match listing with
  | None => Return None
  | Some files =>
      let files :=
        if (0 <? length extensions)%nat
        then filter (fun file =>
                       existsb (fun ext => endsWith (toLowerCase file) ext) extensions = true)
                    files
        else files in
      let files := filter (fun file => negb (startsWith file ".") = true) files in
      if (length files =? 0)%nat then Return None
      else
        match files !! pick (length files) with
        | Some file => Return (Some (path_join dirPath file))
        | None => Throw (Error "ERR_INVALID_ARG_TYPE")
        end
  end.

(** *** fetchMemeFromSource and fetchMemes

    The network answers a request with the listing of a feed or fails; what
    it answers may depend on the requests made before.  [picks k n] is
    [Math.floor(Math.random() * n)] for the [k]-th random number drawn. *)

Record post := {
  post_title : string;
  post_url : string;   (* [post.data.url || ''] *)
  post_author : string
}.

Record meme := {
  meme_title : string;
  meme_url : string;
  meme_author : string;
  meme_source : string
}.

(** Requests sent and random numbers drawn so far. *)
Record producer_state := {
  requests : list string;
  draws : nat
}.

(** [indexConfig.memeSources]. *)
Definition memeSources : list string :=
  ["r/memes"; "r/dankmemes"; "r/funny"; "r/rareinsults"; "r/clevercomebacks";
   "r/murderedbywords"; "r/facepalm"; "r/HistoryMemes"; "r/ProgrammerHumor";
   "r/MinecraftMemes"; "r/ROBLOXmemes"; "r/wholesomememes";
   "u/The-LSD-Sheet-Guy"; "u/BoredomFestival"; "u/misthi_S"; "u/Idea99";
   "u/Beer_Is_Good_V_2"].

(** [s.substring(n)]. *)
Fixpoint substring_from (n : nat) (s : string) : string :=
  match n, s with
  | O, _ => s
  | S n', String _ s' => substring_from n' s'
  | S _, EmptyString => EmptyString
  end.

(** The address fetchMemeFromSource asks for. *)
Definition sourceUrl (source : string) : string :=
  let isUser := startsWith source "u/" in
  let name := substring_from 2 source in
  if isUser
  then "https://www.reddit.com/user/" +:+ name +:+ "/submitted.json?limit=25&sort=top&t=day"
  else "https://www.reddit.com/r/" +:+ name +:+ "/top.json?limit=25&t=day".

(** The filter of [imagePosts]. *)
Definition isImagePost (p : post) : bool :=
  let postUrl := post_url p in
  includes postUrl "i.redd.it" || includes postUrl "i.imgur.com" ||
  endsWith postUrl ".jpg" || endsWith postUrl ".jpeg" ||
  endsWith postUrl ".png" || endsWith postUrl ".gif".

(** Decimal digits of a number, as a template literal prints it. *)
Definition show_nat (n : nat) : string := NilZero.string_of_uint (Nat.to_uint n).

Section Producer.

Variable http_get : list string -> string -> completion (list post).
Variable picks : nat -> nat -> nat.

(** Every exception inside the [try], a failed request as well as an index
    beyond the image posts, makes the function return [null]. *)
Definition fetchMemeFromSource (st : producer_state) (source : string)
  : option meme * producer_state :=
  let url := sourceUrl source in
  let st1 := {| requests := requests st ++ [url]; draws := draws st |} in
  match http_get (requests st) url with
  | Throw _ => (None, st1)
  | Return posts =>
      let imagePosts := filter (fun p => isImagePost p = true) posts in
      if (length imagePosts =? 0)%nat then (None, st1)
      else
        let st2 := {| requests := requests st1; draws := S (draws st1) |} in
        match imagePosts !! picks (draws st1) (Nat.min 5 (length imagePosts)) with
        | Some p =>
            (Some {| meme_title := post_title p; meme_url := post_url p;
                     meme_author := post_author p; meme_source := source |}, st2)
        | None => (None, st2)
        end
  end.

(** The [while] loop of fetchMemes; [None] when [fuel] iterations were not
    enough to leave it.  A source that is [undefined] makes
    fetchMemeFromSource throw outside its [try]. *)
Fixpoint fetchMemesLoop (fuel count : nat) (memes : list meme) (triedSources : gset string)
    (st : producer_state) : option (completion (list meme) * producer_state) :=
  match fuel with
  | O => None
  | S fuel' =>
      if (length memes <? count)%nat && (size triedSources <? length memeSources)%nat
      then
        let availableSources := filter (fun s => s ∉ triedSources) memeSources in
        let st1 := {| requests := requests st; draws := S (draws st) |} in
        match availableSources !! picks (draws st) (length availableSources) with
        | None => Some (Throw (Error "Cannot read properties of undefined (reading 'startsWith')"), st1)
        | Some source =>
            let triedSources := {[source]} ∪ triedSources in
            let '(found, st2) := fetchMemeFromSource st1 source in
            match found with
            | Some m => fetchMemesLoop fuel' count (memes ++ [m]) triedSources st2
            | None => fetchMemesLoop fuel' count memes triedSources st2
            end
        end
      else Some (Return memes, st)
  end.

Definition fetchMemes (count : nat) (st : producer_state)
  : option (completion (list meme) * producer_state) :=
  match fetchMemesLoop (S (length memeSources)) count [] ∅ st with
  | Some (Return memes, st') =>
      if (length memes <? count)%nat
      then Some (Throw (Error ("Could only find " +:+ show_nat (length memes) +:+ " memes")), st')
      else Some (Return memes, st')
  | other => other
  end.

End Producer.

(** *** downloadImage

    A buffer is its bytes; reading past its end gives [undefined].  [download]
    is the request for the image; [previewText] is
    [toString('utf-8').toLowerCase()]; [files] are the files written. *)

(** [s.replace(/\.[^.]+$/, r)]: the first dot that is followed, up to the end
    of the string, by at least one character and no further dot. *)
Fixpoint replace_extension (s r : string) : string :=
  match s with
  | EmptyString => EmptyString
  | String c s' =>
      if Ascii.eqb c "." && negb (String.eqb s' EmptyString) && negb (includes s' ".")
      then r
      else String c (replace_extension s' r)
  end.

Definition isJPEG (buffer : list N) : bool :=
  bool_decide (buffer !! 0%nat = Some 255%N) && bool_decide (buffer !! 1%nat = Some 216%N).

Definition isPNG (buffer : list N) : bool :=
  bool_decide (buffer !! 0%nat = Some 137%N) && bool_decide (buffer !! 1%nat = Some 80%N).

Definition isGIF (buffer : list N) : bool :=
  bool_decide (buffer !! 0%nat = Some 71%N) && bool_decide (buffer !! 1%nat = Some 73%N).

Definition isWEBP (buffer : list N) : bool :=
  (11 <? length buffer)%nat &&
  bool_decide (buffer !! 8%nat = Some 87%N) && bool_decide (buffer !! 9%nat = Some 69%N).

Definition downloadImage (download : string -> completion (list N))
    (previewText : list N -> string) (files : gmap string (list N))
    (url outputPath : string) : completion string * gmap string (list N) :=
  match download url with
  | Throw e => (Throw e, files)
  | Return buffer =>
      if negb (isJPEG buffer) && negb (isPNG buffer) && negb (isGIF buffer)
         && negb (isWEBP buffer)
      then
        let preview := previewText (take 100 buffer) in
        if includes preview "<html" || includes preview "<!doctype"
        then (Throw (Error "Got HTML instead of image"), files)
        else (Throw (Error "Invalid image format"), files)
      else
        let correctedPath :=
          if isJPEG buffer then replace_extension outputPath ".jpg"
          else if isPNG buffer then replace_extension outputPath ".png"
          else if isGIF buffer then replace_extension outputPath ".gif"
          else outputPath in
        (Return correctedPath, <[correctedPath := buffer]> files)
  end.

(** ** generateMetadata (uploader.js)

    The texts of the metadata are JavaScript strings with characters outside
    ASCII, so they are kept as sequences of UTF-16 code units, the unit in
    which [length] and [substring] count. *)

Module Uploader.

(** The code units of an ASCII literal. *)
Definition u (s : string) : list N :=
  (fun c => N.of_nat (nat_of_ascii c)) <$> list_ascii_of_string s.

(** A line feed. *)
Definition nl : list N := [10%N].

(** The argument object; an absent property is [None].  For [publishAt],
    [None] also stands for [null]. *)
Record options := {
  memeTitles : option (list (list N));
  privacyStatus : option (list N);
  publishAt : option (list N)
}.

Record snippet := {
  title : option (list N);   (* [None]: [undefined] *)
  description : list N;
  tags : list (list N);
  categoryId : list N;
  defaultLanguage : list N;
  defaultAudioLanguage : list N
}.

Record status := {
  status_privacyStatus : list N;
  selfDeclaredMadeForKids : bool;
  status_publishAt : option (list N)   (* [None]: the property is not set *)
}.

Record metadata := {
  meta_snippet : snippet;
  meta_status : status
}.

Definition titleOptions : list (list N) :=
  [u "Daily Dose of Internet Memes #Shorts";
   u "Memes That Hit Different " ++ [55357; 56834]%N ++ u " #Shorts";
   u "Try Not To Laugh Challenge #Shorts";
   u "Funniest Memes of the Day #Shorts";
   u "Meme Compilation That Will Make You Laugh #Shorts";
   u "Best Memes To Cure Your Boredom #Shorts";
   u "Viral Memes You Need To See #Shorts";
   u "When The Memes Are Too Relatable #Shorts"].

Definition rule : list N := replicate 22 9473%N.

(** A string as a condition: the empty string, [null] and [undefined] are
    falsy. *)
Definition truthy (s : option (list N)) : bool :=
  match s with
  | Some (_ :: _) => true
  | _ => false
  end.

Definition generateMetadata (pick : nat -> nat) (opts : options) : metadata :=
  let memeTitles := default [] (memeTitles opts) in
  let privacyStatus := default (u "private") (privacyStatus opts) in
  let publishAt := publishAt opts in
  let title :=
    match memeTitles with
    | first :: _ =>
        if (10 <? length first)%nat
        then
          let memeTitle := take 70 first in
          Some (memeTitle ++ u " #Shorts")
        else titleOptions !! pick (length titleOptions)
    | [] => titleOptions !! pick (length titleOptions)
    end in
  let description := [55357; 56613]%N ++ u " Daily meme compilation!" ++ nl ++ nl in
  let description :=
    if (0 <? length memeTitles)%nat
    then
      (description ++ u "Featured memes:" ++ nl)
      ++ mjoin (imap (fun i memeTitle =>
                        let truncated := take 80 memeTitle in
                        u (show_nat (i + 1)) ++ u ". " ++ truncated ++ nl) memeTitles)
      ++ nl
    else description in
  let description := description ++ rule ++ nl in
  let description := description
    ++ u "#shorts #memes #funny #meme #viral #comedy #lol #relatable #dankmemes #funnymemes"
    ++ nl in
  let description := description ++ rule ++ nl ++ nl in
  let description := description
    ++ [55356; 57269]%N ++ u " Subscribe for daily meme content!" ++ nl in
  let description := description
    ++ [55357; 56397]%N ++ u " Like if this made you laugh!" ++ nl in
  let description := description
    ++ [55357; 56492]%N ++ u " Comment your favorite meme!" ++ nl in
  let tags :=
    [u "memes"; u "meme"; u "funny"; u "shorts"; u "youtube shorts"; u "short";
     u "funny video"; u "meme compilation"; u "dank memes"; u "funny memes";
     u "try not to laugh"; u "comedy"; u "viral"; u "trending"; u "relatable";
     u "humor"; u "lol"] in
  let status :=
    {| status_privacyStatus := if truthy publishAt then u "private" else privacyStatus;
       selfDeclaredMadeForKids := false;
       status_publishAt := if truthy publishAt then publishAt else None |} in
  {| meta_snippet :=
       {| title := title; description := description; tags := tags;
          categoryId := u "24"; defaultLanguage := u "en";
          defaultAudioLanguage := u "en" |};
     meta_status := status |}.

End Uploader.

(** ** The name of a produced video (generateSingleVideo)

    [Date.prototype.toISOString] prints the UTC fields with a fixed number of
    digits: four for a year from 0 to 9999, six after a sign for any other. *)

Definition digit (d : Z) : ascii := ascii_of_nat (48 + Z.to_nat d).

(** The last [k] decimal digits of [n]. *)
Fixpoint digits (k : nat) (n : Z) : string :=
  match k with
  | O => EmptyString
  | S k' => digits k' (n / 10) +:+ String (digit (n mod 10)) EmptyString
  end.

Definition toISOString (t : Z) : string :=
  let y := YearFromTime t in
  (if (0 <=? y) && (y <=? 9999) then digits 4 y
   else (if y <? 0 then "-" else "+") +:+ digits 6 (Z.abs y))
  +:+ "-" +:+ digits 2 (MonthFromTime t + 1)
  +:+ "-" +:+ digits 2 (DateFromTime t)
  +:+ "T" +:+ digits 2 (HourFromTime t)
  +:+ ":" +:+ digits 2 (MinFromTime t)
  +:+ ":" +:+ digits 2 (SecFromTime t)
  +:+ "." +:+ digits 3 (msFromTime t)
  +:+ "Z".

(** [s.replace(/[:.]/g, '-')]. *)
Fixpoint replace_colons_dots (s : string) : string :=
  match s with
  | EmptyString => EmptyString
  | String c s' =>
      String (if Ascii.eqb c ":" || Ascii.eqb c "." then "-"%char else c)
             (replace_colons_dots s')
  end.

(** [s.replace('T', '_')]: the first [T] only. *)
Fixpoint replace_first_T (s : string) : string :=
  match s with
  | EmptyString => EmptyString
  | String c s' => if Ascii.eqb c "T" then String "_" s' else String c (replace_first_T s')
  end.

(** [timestamp] and [outputPath] of generateSingleVideo, [now] being the
    time value of [new Date()]. *)
Definition timestamp (now : Z) : string :=
  substring 0 19 (replace_first_T (replace_colons_dots (toISOString now))).

Definition outputName (now : Z) : string :=
  "meme_video_" +:+ timestamp now +:+ ".mp4".

Definition outputPath (dirname : string) (now : Z) : string :=
  path_join (outputDir dirname) (outputName now).

(** ** Vocabulary of the properties *)

(** A clock that does not advance during the call. *)
Definition frozen (t : Z) : nat -> Z := fun _ => t.

(** 2024-01-15T00:00:00Z, a Monday, as a time value. *)
Definition jan15 : Z := 1705276800000.

(** Three moments of that day: 15:00 UTC (10:00 in the reference timezone),
    22:50 UTC (17:50) and 01:00 UTC (20:00 of the day before). *)
Definition at_1500 : Z := jan15 + 15 * msPerHour.
Definition at_2250 : Z := jan15 + 22 * msPerHour + 50 * msPerMinute.
Definition at_0100 : Z := jan15 + 1 * msPerHour.

(** The minimum lead of calculateSchedule, [15 * 60 * 1000] ms. *)
Definition minLead : Z := 15 * 60 * 1000.

(** [CONFIG.gapMinutes] in milliseconds. *)
Definition gapMs : Z := gapMinutes * msPerMinute.

(** The slot of iteration [i] before the minimum-lead check, and whether the
    check advances it. *)
Definition nominal (clock : nat -> Z) (i : nat) : Z :=
  nominalSlot (clock 0%nat) (scheduleForTomorrow (clock 0%nat)) (Z.of_nat i).

Definition advanced (clock : nat -> Z) (i : nat) : bool :=
  nominal clock i <? clock (S i) + minLead.

(** The calendar day, counted from the epoch, that a time value falls on in
    the reference timezone (UTC-5). *)
Definition estDay (t : Z) : Z := Day (t + estOffset * msPerHour).

(** An entry is hidden when its name begins with a dot, as the filter
    [!file.startsWith('.')] of getRandomFileFromDir has it. *)
Definition hidden (name : string) : bool := startsWith name ".".

(** Results by kind. *)
Definition is_failed (r : publish_result) : bool :=
  match r with Failed _ _ => true | _ => false end.

Definition is_uploaded (r : publish_result) : bool :=
  match r with Uploaded _ _ _ => true | _ => false end.

(** In a trace, every removal of a file comes directly after an upload of
    that same file that the platform confirmed; [prev] is the event before
    the trace. *)
Fixpoint unlinks_follow_success (prev : option event) (tr : list event) : Prop :=
  match tr with
  | [] => True
  | e :: tr' =>
      match e with
      | EvUnlink p =>
          exists t id ttl, prev = Some (EvInsert p t (Inserted id ttl))
      | EvInsert _ _ _ => True
      end /\ unlinks_follow_success (Some e) tr'
  end.

(** A result is justified by the platform: a failure carries the message of
    an error the platform raised for that file after some part [pre] of the
    events in [full], an upload carries the identifier the platform returned
    for that file and slot. *)
Definition justified (platform : list event -> string -> Z -> insert_outcome)
    (full : list event) (r : publish_result) : Prop :=
  match r with
  | Failed msg p =>
      exists pre t err, pre `prefix_of` full /\ msg = message err /\
        (platform pre p t = Rejected err \/ platform pre p t = NotAuthorized err)
  | Uploaded res p t =>
      exists pre, pre `prefix_of` full /\
        platform pre p t = Inserted (videoId res) (title res) /\ publishAt res = t
  | Preview _ _ => False
  end.

(** A queue of three artifacts A, B, C in creation order, and a platform
    that accepts every file but B. *)
Definition demoDir : string := "/app".

Definition demoDisk : storage :=
  Present (<["a.mp4" := 1]> (<["b.mp4" := 2]> (<["c.mp4" := 3]> ∅))).

Definition demoWorld : world := {| disk := demoDisk; trace := [] |}.

Definition demoPlatform (history : list event) (path : string) (t : Z) : insert_outcome :=
  if String.eqb path "/app/output/b.mp4"
  then Rejected (Error "quotaExceeded")
  else Inserted "id" "Daily Dose of Internet Memes #Shorts".

(** An environment in which A cannot be removed (a directory without write
    permission for it, a file held open on Windows). *)
Definition demoFault (history : list event) (path : string) : option js_error :=
  if String.eqb path "/app/output/a.mp4" then Some (Error "EACCES") else None.

(** A scheduled upload of one meme, asked to be public. *)
Definition demoOptions : Uploader.options :=
  {| Uploader.memeTitles := Some [Uploader.u "When the build is green"];
     Uploader.privacyStatus := Some (Uploader.u "public");
     Uploader.publishAt := Some (Uploader.u "2024-01-16T10:00:00.000Z") |}.

Definition demoPick (n : nat) : nat := 2.

(** A queue directory in which macOS left an AppleDouble companion file. *)
Definition hiddenDisk : storage := Present (<["._clip.mp4" := 5]> ∅).

(** The upload attempts recorded in a trace, each with the file and the
    publication time that was requested, and the files removed, in order. *)
Definition attempts (tr : list event) : list (string * Z) :=
  omap (fun e => match e with
                 | EvInsert p t _ => Some (p, t)
                 | EvUnlink _ => None
                 end) tr.

Definition removals (tr : list event) : list string :=
  omap (fun e => match e with
                 | EvUnlink p => Some p
                 | EvInsert _ _ _ => None
                 end) tr.

(** The file and the slot of a result that records an upload. *)
Definition published (r : publish_result) : option (string * Z) :=
  match r with
  | Uploaded _ p t => Some (p, t)
  | _ => None
  end.

(** A file getRandomFileFromDir may return: not hidden, and with one of the
    extensions when any are asked for. *)
Definition candidate_file (toLowerCase : string -> string)
    (extensions : list string) (file : string) : Prop :=
  startsWith file "." = false /\
  (extensions = [] \/
   exists ext, ext ∈ extensions /\ endsWith (toLowerCase file) ext = true).

(** A buffer downloadImage accepts, and the extension it gives the file:
    none for a buffer that only has the WEBP mark. *)
Definition has_signature (buffer : list N) : bool :=
  isJPEG buffer || isPNG buffer || isGIF buffer || isWEBP buffer.

Definition imageExtension (buffer : list N) : option string :=
  if isJPEG buffer then Some ".jpg"
  else if isPNG buffer then Some ".png"
  else if isGIF buffer then Some ".gif"
  else None.

(** Minutes after midnight UTC of slot [i]: 23:00 plus [i] gaps, wrapped. *)
Definition slotMinuteOfDay (i : Z) : Z := (23 * 60 + i * gapMinutes) mod 1440.

(** * Properties *)

(** ** Date arithmetic *)

Example year_of_jan15 :
  YearFromTime jan15 = 2024 /\ MonthFromTime jan15 = 0 /\ getUTCDate jan15 = 15.
Proof. vm_compute. auto. Qed.

(** Across the end of February of a leap year. *)
Example leap_day_2024 :
  MonthFromTime (jan15 + 45 * msPerDay) = 1 /\
  getUTCDate (jan15 + 45 * msPerDay) = 29 /\
  MonthFromTime (setUTCDate (jan15 + 45 * msPerDay) 30) = 2 /\
  getUTCDate (setUTCDate (jan15 + 45 * msPerDay) 30) = 1.
Proof. vm_compute. auto. Qed.

(** The scenario of the specification: three items at 10:00 in the reference
    timezone give 18:00, 18:30 and 19:00 of the same day there. *)
Example schedule_morning :
  calculateSchedule (frozen at_1500) 3 =
    [jan15 + 23 * msPerHour; jan15 + 23 * msPerHour + 30 * msPerMinute;
     jan15 + 24 * msPerHour].
Proof. vm_compute. reflexivity. Qed.

Lemma MonthFromTime_range t : 0 <= MonthFromTime t < 12.
Proof.
  unfold MonthFromTime.
  repeat match goal with |- context [if ?b then _ else _] => destruct b end; lia.
Qed.

(** [d.setUTCDate(d.getUTCDate() + 1)] is one day later, whatever the month. *)
Lemma setUTCDate_next t : setUTCDate t (getUTCDate t + 1) = t + msPerDay.
Proof.
  pose proof (MonthFromTime_range t) as Hm.
  unfold setUTCDate, getUTCDate, DateFromTime, MakeDay, MakeDate.
  rewrite (Z.div_small (MonthFromTime t) 12), (Z.mod_small (MonthFromTime t) 12) by lia.
  rewrite Z.add_0_r. fold (InLeapYear t).
  unfold DayWithinYear, TimeWithinDay, Day.
  pose proof (Z.div_mod t msPerDay ltac:(discriminate)) as Hdm.
  lia.
Qed.

Lemma Day_next t : Day (t + msPerDay) = Day t + 1.
Proof.
  unfold Day. replace (t + msPerDay) with (t + 1 * msPerDay) by lia.
  apply Z.div_add. discriminate.
Qed.

Lemma setUTCHours_whole_minutes t h m :
  setUTCHours t h m 0 0 = Day t * msPerDay + (h * 60 + m) * msPerMinute.
Proof. unfold setUTCHours, MakeDate, MakeTime, msPerHour, msPerMinute, msPerSecond. lia. Qed.

(** ** The slots in closed form *)

Lemma target_time i :
  0 <= i ->
  js_rem (peakHoursEST_start - estOffset + floor_div (i * gapMinutes) 60) 24 * 60
    + js_rem (i * gapMinutes) 60 = slotMinuteOfDay i.
Proof.
  intros Hi. unfold js_rem, floor_div, slotMinuteOfDay, peakHoursEST_start, estOffset, gapMinutes.
  assert (0 <= i * 30 / 60) by (apply Z.div_pos; lia).
  rewrite !Z.rem_mod_nonneg by lia.
  Z.div_mod_to_equations. lia.
Qed.

Lemma slotMinuteOfDay_range i : 0 <= slotMinuteOfDay i < 1440.
Proof. unfold slotMinuteOfDay. apply Z.mod_pos_bound. lia. Qed.

Lemma nominalSlot_eq now tomorrow i :
  0 <= i ->
  nominalSlot now tomorrow i =
    (Day now + (if tomorrow then 1 else 0)) * msPerDay + slotMinuteOfDay i * msPerMinute.
Proof.
  intros Hi. unfold nominalSlot.
  rewrite setUTCHours_whole_minutes, target_time by done.
  destruct tomorrow.
  - by rewrite setUTCDate_next, Day_next.
  - by rewrite Z.add_0_r.
Qed.

Lemma slotAt_eq now tomorrow dateNow i :
  slotAt now tomorrow dateNow i =
    let n := nominalSlot now tomorrow i in
    if n <? dateNow + minLead then n + msPerDay else n.
Proof. unfold slotAt. cbv zeta. by rewrite setUTCDate_next. Qed.

Lemma calculateSchedule_length clock count :
  length (calculateSchedule clock count) = count.
Proof. unfold calculateSchedule. by rewrite length_map, length_seq. Qed.

Lemma calculateSchedule_lookup clock count i :
  (i < count)%nat ->
  calculateSchedule clock count !! i =
    Some (if advanced clock i then nominal clock i + msPerDay else nominal clock i).
Proof.
  intros Hi. unfold calculateSchedule. cbv zeta.
  rewrite list_lookup_fmap, lookup_seq_lt by done. simpl.
  by rewrite slotAt_eq.
Qed.

Lemma calculateSchedule_lookup_Some clock count i slot :
  calculateSchedule clock count !! i = Some slot ->
  (i < count)%nat /\
  slot = (if advanced clock i then nominal clock i + msPerDay else nominal clock i).
Proof.
  intros H. assert (i < count)%nat as Hi.
  { apply lookup_lt_Some in H. by rewrite calculateSchedule_length in H. }
  rewrite calculateSchedule_lookup in H by done. split; [done | congruence].
Qed.

Lemma nominal_eq clock i :
  nominal clock i =
    (Day (clock 0%nat) + (if scheduleForTomorrow (clock 0%nat) then 1 else 0)) * msPerDay
    + slotMinuteOfDay (Z.of_nat i) * msPerMinute.
Proof. unfold nominal. apply nominalSlot_eq. lia. Qed.

(** The batch is anchored to tomorrow exactly in the UTC hours 23 and 0-4. *)
Lemma scheduleForTomorrow_false now :
  scheduleForTomorrow now = false ->
  5 * msPerHour <= now - Day now * msPerDay < 23 * msPerHour.
Proof.
  unfold scheduleForTomorrow, estHour, getUTCHours, HourFromTime, js_rem,
    peakHoursEST_start, estOffset, Day, msPerHour, msPerDay.
  intros H%Z.leb_gt.
  assert (0 <= (now / 3600000) mod 24 < 24) by (apply Z.mod_pos_bound; lia).
  rewrite Z.rem_mod_nonneg in H by lia.
  revert H. Z.div_mod_to_equations. lia.
Qed.

Lemma scheduleForTomorrow_true now :
  scheduleForTomorrow now = true ->
  now - Day now * msPerDay < 5 * msPerHour \/
  23 * msPerHour <= now - Day now * msPerDay < msPerDay.
Proof.
  unfold scheduleForTomorrow, estHour, getUTCHours, HourFromTime, js_rem,
    peakHoursEST_start, estOffset, Day, msPerHour, msPerDay.
  intros H%Z.leb_le.
  assert (0 <= (now / 3600000) mod 24 < 24) by (apply Z.mod_pos_bound; lia).
  rewrite Z.rem_mod_nonneg in H by lia.
  revert H. Z.div_mod_to_equations. lia.
Qed.

Lemma estHour_peak now :
  estHour now = peakHoursEST_start ->
  scheduleForTomorrow now = true /\
  23 * msPerHour <= now - Day now * msPerDay < msPerDay.
Proof.
  intros H. split.
  { unfold scheduleForTomorrow. rewrite H. by apply Z.leb_le. }
  revert H.
  unfold estHour, getUTCHours, HourFromTime, js_rem,
    peakHoursEST_start, estOffset, Day, msPerHour, msPerDay.
  assert (0 <= (now / 3600000) mod 24 < 24) by (apply Z.mod_pos_bound; lia).
  rewrite Z.rem_mod_nonneg by lia.
  Z.div_mod_to_equations. lia.
Qed.

Lemma getUTCHours_next_day t : getUTCHours (t + msPerDay) = getUTCHours t.
Proof.
  unfold getUTCHours, HourFromTime, msPerDay, msPerHour.
  Z.div_mod_to_equations. lia.
Qed.

Lemma getUTCMinutes_next_day t : getUTCMinutes (t + msPerDay) = getUTCMinutes t.
Proof.
  unfold getUTCMinutes, MinFromTime, msPerDay, msPerMinute.
  Z.div_mod_to_equations. lia.
Qed.

Lemma whole_minute_seconds k :
  getUTCSeconds (k * msPerMinute) = 0 /\ getUTCMilliseconds (k * msPerMinute) = 0.
Proof.
  unfold getUTCSeconds, getUTCMilliseconds, SecFromTime, msFromTime,
    msPerMinute, msPerSecond.
  Z.div_mod_to_equations. lia.
Qed.

(** Every slot is a whole number of minutes since the epoch. *)
Lemma slot_whole_minute clock count i slot :
  calculateSchedule clock count !! i = Some slot ->
  exists k, slot = k * msPerMinute.
Proof.
  intros [_ ->]%calculateSchedule_lookup_Some. rewrite nominal_eq.
  set (d := Day _ + _). set (m := slotMinuteOfDay _).
  destruct (advanced clock i).
  - exists ((d + 1) * 1440 + m). unfold msPerDay, msPerMinute. lia.
  - exists (d * 1440 + m). unfold msPerDay, msPerMinute. lia.
Qed.

(** ** Claims about calculateSchedule *)

(** C10. Every timestamp calculateSchedule returns is aligned to a whole
    minute: its seconds and milliseconds are zero, for every count and every
    reading of the clock. *)
Theorem slots_whole_minutes clock count slot :
  slot ∈ calculateSchedule clock count ->
  getUTCSeconds slot = 0 /\ getUTCMilliseconds slot = 0.
Proof.
  intros [i Hi]%list_elem_of_lookup.
  destruct (slot_whole_minute _ _ _ _ Hi) as [k ->].
  apply whole_minute_seconds.
Qed.

Lemma slots_whole_minutes_witness :
  getUTCSeconds (jan15 + 23 * msPerHour) = 0 /\
  getUTCMilliseconds (jan15 + 23 * msPerHour) = 0.
Proof.
  apply (slots_whole_minutes (frozen (jan15 + 15 * msPerHour + 12345)) 3).
  vm_compute. apply list_elem_of_here.
Defined.

(** C3. With a clock that does not run backwards and moves less than 45
    minutes while the schedule is computed, every returned slot is at least
    [minLead] (15 minutes) after the moment of computation, both the one read
    at entry and the one read in the slot's own iteration; a nominal slot
    before that moment plus [minLead] is moved by exactly one day and keeps its
    hour and minute, any other is returned as it is. *)
Theorem min_lead_time clock count i slot :
  (forall k, clock 0%nat <= clock (S k) <= clock 0%nat + 45 * msPerMinute) ->
  calculateSchedule clock count !! i = Some slot ->
  clock 0%nat + minLead <= slot /\
  clock (S i) + minLead <= slot /\
  (if advanced clock i
   then slot = nominal clock i + msPerDay /\
        getUTCHours slot = getUTCHours (nominal clock i) /\
        getUTCMinutes slot = getUTCMinutes (nominal clock i)
   else slot = nominal clock i).
Proof.
  intros Hclock [_ ->]%calculateSchedule_lookup_Some.
  specialize (Hclock i).
  destruct (advanced clock i) eqn:Hadv.
  - rewrite getUTCHours_next_day, getUTCMinutes_next_day.
    split_and!; try done.
    all: rewrite nominal_eq;
      pose proof (slotMinuteOfDay_range (Z.of_nat i));
      destruct (scheduleForTomorrow (clock 0%nat)) eqn:Htom;
      [ apply scheduleForTomorrow_true in Htom
      | apply scheduleForTomorrow_false in Htom ];
      revert Hclock Htom; unfold minLead, msPerDay, msPerHour, msPerMinute; lia.
  - unfold advanced in Hadv. apply Z.ltb_ge in Hadv. split_and!; [lia | lia | done].
Qed.

Lemma min_lead_time_witness :
  frozen at_2250 0%nat + minLead <= 1705446000000 /\
  frozen at_2250 1%nat + minLead <= 1705446000000 /\
  (if advanced (frozen at_2250) 0
   then 1705446000000 = nominal (frozen at_2250) 0 + msPerDay /\
        getUTCHours 1705446000000 = getUTCHours (nominal (frozen at_2250) 0) /\
        getUTCMinutes 1705446000000 = getUTCMinutes (nominal (frozen at_2250) 0)
   else 1705446000000 = nominal (frozen at_2250) 0).
Proof.
  apply (min_lead_time (frozen at_2250) 2 0 1705446000000).
  - intros k. unfold frozen, msPerMinute. lia.
  - vm_compute. reflexivity.
Defined.

(** C2, as stated, fails: started at 22:50 UTC (17:50 in the reference
    timezone) with two items, the first slot is moved to tomorrow by the
    minimum-lead check and the second is not, so the second slot is earlier
    than the first. *)
Lemma schedule_not_increasing :
  calculateSchedule (frozen at_2250) 2 =
    [jan15 + msPerDay + 23 * msPerHour; jan15 + 23 * msPerHour + 30 * msPerMinute]
  /\ jan15 + 23 * msPerHour + 30 * msPerMinute < jan15 + msPerDay + 23 * msPerHour.
Proof. split; [vm_compute; reflexivity | unfold msPerDay, msPerHour, msPerMinute; lia]. Qed.

(** C2, amended. calculateSchedule returns exactly [count] timestamps; two
    consecutive slots differ by [gapMinutes] minutes modulo whole days; they
    are exactly [gapMinutes] minutes apart, the later one after the earlier,
    when midnight UTC does not fall between their times of day ([i mod 48] is
    not 1) and the minimum-lead check moves both or neither. *)
Theorem schedule_spacing clock count :
  length (calculateSchedule clock count) = count /\
  forall i a b,
    calculateSchedule clock count !! i = Some a ->
    calculateSchedule clock count !! S i = Some b ->
    (b - a) mod msPerDay = gapMs /\
    (Z.of_nat i mod 48 <> 1 -> advanced clock i = advanced clock (S i) ->
     b = a + gapMs /\ a < b).
Proof.
  split; [apply calculateSchedule_length |].
  intros i a b [_ ->]%calculateSchedule_lookup_Some [_ ->]%calculateSchedule_lookup_Some.
  rewrite !nominal_eq. set (d := Day _ + _).
  assert (slotMinuteOfDay (Z.of_nat (S i)) =
            slotMinuteOfDay (Z.of_nat i) + 30
            - (if Z.of_nat i mod 48 =? 1 then 1440 else 0)) as ->.
  { unfold slotMinuteOfDay, gapMinutes. destruct (Z.eqb_spec (Z.of_nat i mod 48) 1) as [H|H];
      revert H; Z.div_mod_to_equations; lia. }
  set (m := slotMinuteOfDay _). unfold gapMs, gapMinutes, msPerDay, msPerMinute.
  split.
  - destruct (advanced clock i), (advanced clock (S i)), (Z.of_nat i mod 48 =? 1);
      Z.div_mod_to_equations; lia.
  - intros Hw%Z.eqb_neq ->. rewrite Hw. destruct (advanced clock (S i)); lia.
Qed.

Lemma schedule_spacing_witness :
  (1705361400000 - 1705359600000) mod msPerDay = gapMs /\
  (Z.of_nat 0 mod 48 <> 1 ->
   advanced (frozen at_1500) 0 = advanced (frozen at_1500) 1 ->
   1705361400000 = 1705359600000 + gapMs /\ 1705359600000 < 1705361400000).
Proof.
  apply (proj2 (schedule_spacing (frozen at_1500) 3) 0%nat 1705359600000 1705361400000).
  - vm_compute. reflexivity.
  - vm_compute. reflexivity.
Defined.

(** What the hour wrap does when the batch is anchored to tomorrow: run at
    01:00 UTC, the third slot is at 00:00 of the day the first two are at
    23:00 and 23:30 of. *)
Example schedule_midnight_wrap :
  calculateSchedule (frozen at_0100) 3 =
    [jan15 + msPerDay + 23 * msPerHour;
     jan15 + msPerDay + 23 * msPerHour + 30 * msPerMinute;
     jan15 + msPerDay].
Proof. vm_compute. reflexivity. Qed.

Lemma estDay_at day minutes :
  300 <= minutes < 1740 ->
  estDay (day * msPerDay + minutes * msPerMinute) = day.
Proof.
  intros H. unfold estDay, Day, estOffset, msPerDay, msPerHour, msPerMinute.
  Z.div_mod_to_equations. lia.
Qed.

Lemma slotMinuteOfDay_0 : slotMinuteOfDay (Z.of_nat 0) = 1380.
Proof. reflexivity. Qed.

(** C4, as stated, fails: at 22:50 UTC the reference hour is 17, before
    [peakHoursEST_start], yet the first slot is on tomorrow's reference
    date, because today's 18:00 is less than 15 minutes away. *)
Lemma anchor_day_not_today :
  estHour (frozen at_2250 0%nat) = 17 /\
  estHour (frozen at_2250 0%nat) < peakHoursEST_start /\
  calculateSchedule (frozen at_2250) 1 = [jan15 + msPerDay + 23 * msPerHour] /\
  estDay (jan15 + msPerDay + 23 * msPerHour) = estDay (frozen at_2250 0%nat) + 1.
Proof. vm_compute. auto. Qed.

(** C4, amended. With a clock that moves at most 45 minutes before the first
    slot is checked: if the reference hour is before [peakHoursEST_start],
    the first slot falls on today's reference date when it is at least
    [minLead] after the clock reading of its iteration, and on tomorrow's
    when it is not; if the reference hour is [peakHoursEST_start], the first
    slot falls on tomorrow's reference date. *)
Theorem anchor_day clock count first :
  clock 1%nat <= clock 0%nat + 45 * msPerMinute ->
  calculateSchedule clock count !! 0%nat = Some first ->
  (estHour (clock 0%nat) < peakHoursEST_start ->
     estDay first = estDay (clock 0%nat) + (if advanced clock 0 then 1 else 0)) /\
  (estHour (clock 0%nat) = peakHoursEST_start ->
     estDay first = estDay (clock 0%nat) + 1).
Proof.
  intros Hclock [_ ->]%calculateSchedule_lookup_Some.
  set (now := clock 0%nat) in *.
  assert (forall lo hi, lo * msPerHour <= now - Day now * msPerDay < hi * msPerHour ->
            5 <= lo -> hi <= 24 -> estDay now = Day now) as Hnow.
  { intros lo hi H Hlo Hhi. revert H.
    unfold estDay, Day, estOffset, msPerDay, msPerHour.
    Z.div_mod_to_equations. nia. }
  split.
  - intros Hh. assert (scheduleForTomorrow now = false) as Htom.
    { unfold scheduleForTomorrow. by apply Z.leb_gt. }
    pose proof (scheduleForTomorrow_false _ Htom) as Hwin.
    rewrite (Hnow 5 23) by (done || lia).
    rewrite nominal_eq. fold now. rewrite Htom, slotMinuteOfDay_0, Z.add_0_r.
    destruct (advanced clock 0).
    + replace (Day now * msPerDay + 1380 * msPerMinute + msPerDay)
        with ((Day now + 1) * msPerDay + 1380 * msPerMinute) by lia.
      apply estDay_at. lia.
    + rewrite Z.add_0_r. apply estDay_at. lia.
  - intros [Htom Hwin]%estHour_peak.
    rewrite (Hnow 23 24) by (done || lia).
    assert (advanced clock 0 = false) as ->.
    { unfold advanced. apply Z.ltb_ge. rewrite nominal_eq. fold now.
      rewrite Htom, slotMinuteOfDay_0.
      revert Hclock Hwin. fold now. unfold minLead, msPerDay, msPerHour, msPerMinute. lia. }
    rewrite nominal_eq. fold now. rewrite Htom, slotMinuteOfDay_0.
    apply estDay_at. lia.
Qed.

Lemma anchor_day_witness :
  (estHour (frozen at_1500 0%nat) < peakHoursEST_start ->
     estDay 1705359600000 =
       estDay (frozen at_1500 0%nat) + (if advanced (frozen at_1500) 0 then 1 else 0)) /\
  (estHour (frozen at_1500 0%nat) = peakHoursEST_start ->
     estDay 1705359600000 = estDay (frozen at_1500 0%nat) + 1).
Proof.
  apply (anchor_day (frozen at_1500) 3 1705359600000).
  - unfold frozen, msPerMinute. lia.
  - vm_compute. reflexivity.
Defined.

(** What anchoring on the UTC date does late in the reference day: at 01:00
    UTC the reference hour is 20 and the reference date is still yesterday's,
    and the first slot is two reference days later. *)
Example anchor_day_late_evening :
  estHour (frozen at_0100 0%nat) = 20 /\
  calculateSchedule (frozen at_0100) 1 = [jan15 + msPerDay + 23 * msPerHour] /\
  estDay (jan15 + msPerDay + 23 * msPerHour) = estDay (frozen at_0100 0%nat) + 2.
Proof. vm_compute. auto. Qed.

(** ** Strings and paths *)

Lemma string_app_cons x (a b : string) : String x a +:+ b = String x (a +:+ b).
Proof. reflexivity. Qed.

Example endsWith_mp4 :
  endsWith "meme_video_2024-01-15_10-00-00.mp4" ".mp4" = true /\
  endsWith ".mp4" ".mp4" = true /\
  endsWith "mp4" ".mp4" = false /\
  endsWith "clip.mp4.part" ".mp4" = false /\
  endsWith "clip.MP4" ".mp4" = false.
Proof. vm_compute. auto. Qed.

Lemma strip_prefix_app prefix s : strip_prefix prefix (prefix +:+ s) = Some s.
Proof.
  induction prefix as [|a prefix IH]; [done |].
  rewrite string_app_cons. simpl. by rewrite Ascii.eqb_refl.
Qed.

Lemma strip_prefix_Some prefix s r :
  strip_prefix prefix s = Some r -> s = prefix +:+ r.
Proof.
  revert s. induction prefix as [|a prefix IH]; intros s; simpl.
  - by intros [= ->].
  - destruct s as [|b s]; [done |].
    destruct (Ascii.eqb_spec a b) as [->|]; [| done].
    intros H. by rewrite (IH _ H).
Qed.

Lemma string_app_assoc (a b c : string) : (a +:+ b) +:+ c = a +:+ b +:+ c.
Proof.
  induction a as [|x a IH]; [done |].
  rewrite !string_app_cons. by f_equal.
Qed.

Lemma string_app_length (a b : string) :
  String.length (a +:+ b) = (String.length a + String.length b)%nat.
Proof.
  induction a as [|x a IH]; [done |].
  rewrite string_app_cons. simpl. by f_equal.
Qed.

#[local] Instance path_join_inj dir : Inj (=) (=) (path_join dir).
Proof.
  intros f g H. unfold path_join in H.
  by apply (inj (String.app dir)), (inj (String.app "/")) in H.
Qed.

Lemma path_join_ne_dir dir name : path_join dir name <> dir.
Proof.
  intros H. apply (f_equal String.length) in H.
  unfold path_join in H. rewrite !string_app_length in H. simpl in H. lia.
Qed.

(** ** Sorting *)

Lemma js_insert_Permutation {A} (compare : A -> A -> Z) x l :
  js_insert compare x l ≡ₚ x :: l.
Proof.
  induction l as [|y l IH]; simpl; [done |].
  destruct (compare x y <=? 0); [done |].
  rewrite IH. apply Permutation_swap.
Qed.

Lemma js_sort_Permutation {A} (compare : A -> A -> Z) l : js_sort compare l ≡ₚ l.
Proof.
  induction l as [|x l IH]; simpl; [done |].
  by rewrite js_insert_Permutation, IH.
Qed.

(** The result is in ascending order of a key when the comparator is the
    difference of the keys: the pending list is oldest first. *)
Lemma js_insert_sorted {A} (key : A -> Z) x l :
  StronglySorted (fun a b => key a <= key b) l ->
  StronglySorted (fun a b => key a <= key b) (js_insert (fun a b => key a - key b) x l).
Proof.
  induction 1 as [|y l Hl IH Hy]; simpl; [by repeat constructor |].
  destruct (Z.leb_spec (key x - key y) 0) as [Hle|Hgt].
  - constructor; [by constructor |]. constructor; [lia |].
    eapply Forall_impl; [exact Hy |]. simpl. intros z Hz. lia.
  - constructor; [done |].
    rewrite js_insert_Permutation. constructor; [lia | done].
Qed.

Lemma js_sort_sorted {A} (key : A -> Z) l :
  StronglySorted (fun a b => key a <= key b) (js_sort (fun a b => key a - key b) l).
Proof.
  induction l as [|x l IH]; simpl; [constructor |]. by apply js_insert_sorted.
Qed.

Section Storage.

Variable dirname : string.

Abbreviation out := (outputDir dirname).
Abbreviation artifact := (path_join (outputDir dirname)).

Implicit Types (entries : gmap string Z) (s : storage) (w : world).
Implicit Types (name path : string).

Lemma entry_of_artifact name : entry_of dirname (artifact name) = Some name.
Proof.
  unfold entry_of, path_join. rewrite <- string_app_assoc. apply strip_prefix_app.
Qed.

Lemma entry_of_Some path name :
  entry_of dirname path = Some name -> path = artifact name.
Proof.
  unfold entry_of, path_join. intros ->%strip_prefix_Some. apply string_app_assoc.
Qed.

Lemma entry_of_out : entry_of dirname out = None.
Proof.
  destruct (entry_of dirname out) as [name|] eqn:H; [| done].
  apply entry_of_Some in H. symmetry in H. by apply path_join_ne_dir in H.
Qed.

Lemma existsSync_out entries : existsSync dirname (Present entries) out = true.
Proof. unfold existsSync. by rewrite String.eqb_refl. Qed.

Lemma existsSync_artifact entries name :
  existsSync dirname (Present entries) (artifact name)
  = bool_decide (is_Some (entries !! name)).
Proof.
  unfold existsSync. rewrite entry_of_artifact.
  destruct (String.eqb_spec (artifact name) out) as [H|]; [| done].
  by apply path_join_ne_dir in H.
Qed.

Lemma unlinkSync_artifact tr entries name :
  is_Some (entries !! name) ->
  unlinkSync dirname noFault tr (Present entries) (artifact name)
  = Return (Present (delete name entries)).
Proof.
  intros H. unfold unlinkSync. rewrite entry_of_artifact.
  by rewrite bool_decide_eq_true_2.
Qed.

Lemma unlinkSync_artifact_any unlinkFault tr entries name :
  is_Some (entries !! name) ->
  unlinkSync dirname unlinkFault tr (Present entries) (artifact name)
  = match unlinkFault tr (artifact name) with
    | Some e => Throw e
    | None => Return (Present (delete name entries))
    end.
Proof.
  intros H. unfold unlinkSync. rewrite entry_of_artifact.
  by rewrite bool_decide_eq_true_2.
Qed.

(** *** The pending list as a set *)

Lemma getPendingVideos_Missing : getPendingVideos dirname Missing = [].
Proof. reflexivity. Qed.

Lemma getPendingVideos_Present entries :
  getPendingVideos dirname (Present entries) ≡ₚ
    artifact <$> filter (fun f => endsWith f ".mp4" = true) (map_to_list entries).*1.
Proof.
  unfold getPendingVideos. rewrite existsSync_out. simpl.
  apply js_sort_Permutation.
Qed.

Lemma elem_of_getPendingVideos entries path :
  path ∈ getPendingVideos dirname (Present entries) <->
  exists name, path = artifact name /\ endsWith name ".mp4" = true /\
               is_Some (entries !! name).
Proof.
  rewrite getPendingVideos_Present, list_elem_of_fmap.
  split; intros (name & -> & H); exists name; (split; [done |]).
  - apply list_elem_of_filter in H as [He H]. split; [done |].
    apply list_elem_of_fmap in H as ([k x] & -> & H). simpl.
    apply elem_of_map_to_list in H. by exists x.
  - destruct H as [He [x Hx]]. apply list_elem_of_filter. split; [done |].
    apply list_elem_of_fmap. exists (name, x). split; [done |].
    by apply elem_of_map_to_list.
Qed.

Lemma NoDup_getPendingVideos s : NoDup (getPendingVideos dirname s).
Proof.
  destruct s as [|entries]; [constructor |].
  rewrite getPendingVideos_Present.
  apply NoDup_fmap_2; [apply _ |].
  apply NoDup_filter, NoDup_fst_map_to_list.
Qed.

Lemma getPendingVideos_oldest_first s :
  StronglySorted (fun a b => statSync_mtime dirname s a <= statSync_mtime dirname s b)
    (getPendingVideos dirname s).
Proof.
  unfold getPendingVideos.
  destruct (existsSync dirname s out); simpl; [| constructor].
  apply (js_sort_sorted (statSync_mtime dirname s)).
Qed.

(** Everything listed exists, so [statSync] never fails in the comparison. *)
Lemma getPendingVideos_exist s path :
  path ∈ getPendingVideos dirname s -> existsSync dirname s path = true.
Proof.
  destruct s as [|entries]; [by intros ?%elem_of_nil |].
  intros (name & -> & _ & H)%elem_of_getPendingVideos.
  rewrite existsSync_artifact. by apply bool_decide_eq_true_2.
Qed.

End Storage.

(** ** The upload loop *)

Section Orchestrator.

Variable dirname : string.
Variable platform : list event -> string -> Z -> insert_outcome.
Variable unlinkFault : list event -> string -> option js_error.

Abbreviation artifact := (path_join (outputDir dirname)).
Abbreviation pendingOf := (getPendingVideos dirname).

Implicit Types (entries : gmap string Z) (w : world) (name path : string).
Implicit Types (results new : list publish_result) (schedule : list Z).

(** Paths of the results of one kind. *)
Abbreviation failedPaths results := (videoPath <$> filter (fun r => is_failed r) results).
Abbreviation uploadedPaths results := (videoPath <$> filter (fun r => is_uploaded r) results).

(** One item: what the loop body does to an artifact that is on disk. *)
Lemma uploadStep_artifact schedule i name w results entries t :
  disk w = Present entries ->
  is_Some (entries !! name) ->
  schedule !! i = Some t ->
  uploadStep dirname platform noFault schedule i (artifact name) w results =
    match platform (trace w) (artifact name) t with
    | NotAuthorized e => (results ++ [Failed (message e) (artifact name)], w)
    | Rejected e =>
        (results ++ [Failed (message e) (artifact name)],
         {| disk := disk w;
            trace := trace w ++ [EvInsert (artifact name) t (Rejected e)] |})
    | Inserted id ttl =>
        (results ++ [Uploaded {| videoId := id; title := ttl; publishAt := t |}
                       (artifact name) t],
         {| disk := Present (delete name entries);
            trace := (trace w ++ [EvInsert (artifact name) t (Inserted id ttl)])
                       ++ [EvUnlink (artifact name)] |})
    end.
Proof.
  intros Hd Hin Ht. unfold uploadStep, uploadVideo. rewrite Ht, Hd.
  rewrite existsSync_artifact, bool_decide_eq_true_2 by done. cbn [negb].
  destruct (platform (trace w) (artifact name) t) as [e|id ttl|e]; [done | | done].
  unfold deleteVideo. cbn [disk trace].
  rewrite existsSync_artifact, bool_decide_eq_true_2 by done.
  by rewrite unlinkSync_artifact.
Qed.

Lemma unlinks_follow_success_app prev tr1 tr2 :
  unlinks_follow_success prev tr1 ->
  (forall prev', unlinks_follow_success prev' tr2) ->
  unlinks_follow_success prev (tr1 ++ tr2).
Proof.
  revert prev. induction tr1 as [|e tr1 IH]; intros prev H1 H2; simpl; [apply H2 |].
  destruct H1 as [He H1]. split; [done |]. by apply IH.
Qed.

Lemma justified_mono full full' r :
  full `prefix_of` full' -> justified platform full r -> justified platform full' r.
Proof.
  intros Hp. destruct r as [res p t|msg p|p t]; simpl; [| | done].
  - intros (pre & H & ?). exists pre. split; [by etrans | done].
  - intros (pre & t & err & H & ?). exists pre, t, err. split; [by etrans | done].
Qed.

(** What a run of the loop over artifacts that are on disk achieves. *)
Record loop_post (entries : gmap string Z) (w : world) (todo : list string)
    (new : list publish_result) (w' : world) : Prop := {
  post_paths : videoPath <$> new = todo;
  post_kinds : Forall (fun r => is_failed r = negb (is_uploaded r) /\ is_Some (success r)) new;
  post_disk : exists entries', disk w' = Present entries' /\
      forall name, entries' !! name =
        if decide (artifact name ∈ uploadedPaths new) then None else entries !! name;
  post_trace : exists tr, trace w' = trace w ++ tr /\
      forall prev, unlinks_follow_success prev tr;
  post_justified : Forall (justified platform (trace w')) new
}.

Lemma uploadLoop_post schedule todo : forall i w results entries,
  disk w = Present entries ->
  NoDup todo ->
  Forall (fun p => exists name, p = artifact name /\ is_Some (entries !! name)) todo ->
  (i + length todo <= length schedule)%nat ->
  exists new w',
    uploadLoop dirname platform noFault schedule i todo w results = (results ++ new, w') /\
    loop_post entries w todo new w'.
Proof.
  induction todo as [|p todo IH]; intros i w results entries Hd Hnd Hex Hlen.
  { exists [], w. simpl. rewrite app_nil_r. split; [done |].
    split; [done | by constructor | | | by constructor].
    - exists entries. split; [done |]. intros name.
      rewrite decide_False; [done | apply not_elem_of_nil].
    - exists []. by rewrite app_nil_r. }
  apply NoDup_cons in Hnd as [Hp Hnd].
  apply Forall_cons in Hex as [(name & -> & Hname) Hex].
  simpl in Hlen.
  destruct (lookup_lt_is_Some_2 schedule i ltac:(lia)) as [t Ht].
  simpl. rewrite (uploadStep_artifact _ _ _ _ _ entries t) by done.
  destruct (platform (trace w) (artifact name) t) as [e|id ttl|e] eqn:Hpl.
  - (* no authorised client: failure, nothing sent, nothing removed *)
    destruct (IH (S i) w (results ++ [Failed (message e) (artifact name)]) entries)
      as (new & w' & -> & [P1 P2 (entries' & P3 & P3') (tr & P4 & P4') P5]);
      [done | done | done | lia |].
    exists (Failed (message e) (artifact name) :: new), w'.
    split; [by rewrite <- app_assoc |].
    split; csimpl.
    + by rewrite P1.
    + by constructor.
    + exists entries'. split; [done |]. intros n. rewrite P3'. by rewrite filter_cons_False by (by intros []).
    + by exists tr.
    + constructor; [| done]. exists (trace w), t, e. split_and!; [| done | by right].
      rewrite P4. by apply prefix_app_r.
  - (* confirmed: success recorded, then the file is removed *)
    set (w1 := {| disk := Present (delete name entries); trace := _ |}).
    set (r := Uploaded _ _ _).
    destruct (IH (S i) w1 (results ++ [r]) (delete name entries))
      as (new & w' & -> & [P1 P2 (entries' & P3 & P3') (tr & P4 & P4') P5]);
      [done | done | | lia |].
    { apply Forall_forall. intros q Hq. rewrite Forall_forall in Hex.
      destruct (Hex q Hq) as (n & -> & Hn).
      exists n. split; [done |]. rewrite lookup_delete_ne; [done |].
      by intros ->. }
    exists (r :: new), w'.
    split; [by rewrite <- app_assoc |].
    split; csimpl.
    + by rewrite P1.
    + by constructor.
    + exists entries'. split; [done |]. intros n. rewrite P3'.
      destruct (decide (n = name)) as [->|Hne].
      * rewrite lookup_delete_eq.
        rewrite (decide_True (P := _ ∈ _ :: _)) by apply list_elem_of_here.
        by case_decide.
      * rewrite lookup_delete_ne by done.
        case_decide as H1; case_decide as H2; try done.
        -- exfalso. apply H2. by apply list_elem_of_further.
        -- exfalso. apply elem_of_cons in H2 as [H2|H2]; [| done].
           by apply (inj _) in H2.
    + exists ([EvInsert (artifact name) t (Inserted id ttl); EvUnlink (artifact name)] ++ tr).
      split.
      * rewrite P4. subst w1. simpl. by rewrite <- !app_assoc.
      * intros prev. apply unlinks_follow_success_app; [| done].
        simpl. split_and!; try done. by exists t, id, ttl.
    + constructor; [| done]. exists (trace w). split_and!; [| done | done].
      rewrite P4. subst w1. simpl. rewrite <- !app_assoc. by apply prefix_app_r.
  - (* rejected: failure recorded, the file stays *)
    set (w1 := {| disk := disk w; trace := _ |}).
    destruct (IH (S i) w1 (results ++ [Failed (message e) (artifact name)]) entries)
      as (new & w' & -> & [P1 P2 (entries' & P3 & P3') (tr & P4 & P4') P5]);
      [done | done | done | lia |].
    exists (Failed (message e) (artifact name) :: new), w'.
    split; [by rewrite <- app_assoc |].
    split; csimpl.
    + by rewrite P1.
    + by constructor.
    + exists entries'. split; [done |]. intros n. rewrite P3'. by rewrite filter_cons_False by (by intros []).
    + exists ([EvInsert (artifact name) t (Rejected e)] ++ tr). split.
      * rewrite P4. subst w1. simpl. by rewrite <- !app_assoc.
      * intros prev. apply unlinks_follow_success_app; [| done]. by simpl.
    + constructor; [| done]. exists (trace w), t, e. split_and!; [| done | by left].
      rewrite P4. subst w1. simpl. rewrite <- !app_assoc. by apply prefix_app_r.
Qed.

(** *** A run of uploadAllPending *)

Lemma NoDup_fmap_elem_inj {A B} (f : A -> B) (l : list A) x y :
  NoDup (f <$> l) -> x ∈ l -> y ∈ l -> f x = f y -> x = y.
Proof.
  induction l as [|a l IH]; csimpl; [by intros _ ?%elem_of_nil |].
  intros [Ha Hl]%NoDup_cons [->|Hx]%elem_of_cons [->|Hy]%elem_of_cons Hf; try done.
  - exfalso. apply Ha. rewrite Hf. by apply list_elem_of_fmap_2.
  - exfalso. apply Ha. rewrite <- Hf. by apply list_elem_of_fmap_2.
  - by apply IH.
Qed.

(** The live run is the loop over the pending list, also when that is empty. *)
Lemma live_run_loop clock w :
  uploadAllPending dirname platform noFault clock false w =
    uploadLoop dirname platform noFault
      (calculateSchedule clock (length (pendingOf (disk w)))) 0
      (pendingOf (disk w)) w [].
Proof.
  unfold uploadAllPending. cbv zeta.
  destruct (pendingOf (disk w)) as [|p l]; done.
Qed.

Lemma live_run_Missing clock dryRun w :
  disk w = Missing -> uploadAllPending dirname platform noFault clock dryRun w = ([], w).
Proof. intros H. unfold uploadAllPending. by rewrite H. Qed.

Lemma live_run_post clock w entries :
  disk w = Present entries ->
  loop_post entries w (pendingOf (disk w))
    (uploadAllPending dirname platform noFault clock false w).1
    (uploadAllPending dirname platform noFault clock false w).2.
Proof.
  intros Hd. rewrite live_run_loop.
  destruct (uploadLoop_post (calculateSchedule clock (length (pendingOf (disk w))))
              (pendingOf (disk w)) 0 w [] entries) as (new & w' & -> & Hpost).
  - done.
  - apply NoDup_getPendingVideos.
  - apply Forall_forall. intros p. rewrite Hd.
    intros (name & -> & _ & H)%elem_of_getPendingVideos. by exists name.
  - by rewrite calculateSchedule_length.
  - done.
Qed.

(** Members of the queue after the loop, and of the failed results. *)
Lemma loop_post_after entries w new w' path :
  disk w = Present entries ->
  loop_post entries w (pendingOf (disk w)) new w' ->
  path ∈ pendingOf (disk w') <->
  path ∈ pendingOf (disk w) /\ path ∉ uploadedPaths new.
Proof.
  intros Hd [_ _ (entries' & Hd' & Hlook) _ _]. rewrite Hd, Hd'.
  rewrite !elem_of_getPendingVideos. split.
  - intros (name & -> & He & Hin). rewrite Hlook in Hin.
    case_decide as Hup; [by destruct Hin |]. split; [by exists name | done].
  - intros [(name & -> & He & Hin) Hup]. exists name. split_and!; try done.
    rewrite Hlook. by rewrite decide_False.
Qed.

Lemma loop_post_failed entries w todo new w' path :
  NoDup todo ->
  loop_post entries w todo new w' ->
  path ∈ failedPaths new <-> path ∈ todo /\ path ∉ uploadedPaths new.
Proof.
  intros Hnd [Hpaths Hkinds _ _ _]. rewrite <- Hpaths in Hnd |- *.
  rewrite Forall_forall in Hkinds. split.
  - intros (r & -> & [Hf Hr]%list_elem_of_filter)%list_elem_of_fmap. split.
    + by apply list_elem_of_fmap_2.
    + intros (r' & Heq & [Hu Hr']%list_elem_of_filter)%list_elem_of_fmap.
      assert (r = r') as <- by (by apply (NoDup_fmap_elem_inj videoPath new)).
      destruct (Hkinds r Hr) as [Hk _]. destruct (is_uploaded r), (is_failed r); done.
  - intros [(r & -> & Hr)%list_elem_of_fmap Hup].
    apply list_elem_of_fmap. exists r. split; [done |].
    apply list_elem_of_filter. split; [| done].
    destruct (Hkinds r Hr) as [Hk _]. rewrite Hk.
    destruct (is_uploaded r) eqn:Hu; [| done].
    exfalso. apply Hup. apply list_elem_of_fmap. exists r. split; [done |].
    apply list_elem_of_filter. split; [by rewrite Hu | done].
Qed.

Lemma NoDup_paths_filter (P : publish_result -> Prop) `{forall r, Decision (P r)} new :
  NoDup (videoPath <$> new) -> NoDup (videoPath <$> filter P new).
Proof.
  induction new as [|r new IH]; [done |]. csimpl.
  intros [Hr Hnew]%NoDup_cons. rewrite filter_cons. destruct (decide (P r)); csimpl.
  - apply NoDup_cons. split; [| by apply IH].
    intros (r' & Heq & [_ Hr']%list_elem_of_filter)%list_elem_of_fmap.
    apply Hr. rewrite Heq. by apply list_elem_of_fmap_2.
  - by apply IH.
Qed.

(** *** The loop when a removal can fail

    [deleteVideo] is called inside the [try], after the success result was
    pushed: when [fs.unlinkSync] throws, the [catch] adds a failure result
    for the same artifact, which stays on disk. *)

(** What the loop body leaves for the artifact [name] with slot [t]: a
    failure and the file, an upload and no file, or both results and the
    file. *)
Definition item_post (entries : gmap string Z) (name : string) (t : Z)
    (g : list publish_result) (w1 : world) : Prop :=
  (exists msg, g = [Failed msg (artifact name)] /\ disk w1 = Present entries) \/
  (exists res, publishAt res = t /\ g = [Uploaded res (artifact name) t] /\
     disk w1 = Present (delete name entries)) \/
  (exists res msg, publishAt res = t /\
     g = [Uploaded res (artifact name) t; Failed msg (artifact name)] /\
     disk w1 = Present entries).

Lemma uploadStep_any schedule i name w results entries t :
  disk w = Present entries ->
  is_Some (entries !! name) ->
  schedule !! i = Some t ->
  exists g w1,
    uploadStep dirname platform unlinkFault schedule i (artifact name) w results
      = (results ++ g, w1) /\
    item_post entries name t g w1.
Proof.
  intros Hd Hin Ht. unfold uploadStep, uploadVideo. rewrite Ht, Hd.
  rewrite existsSync_artifact, bool_decide_eq_true_2 by done. cbn [negb].
  destruct (platform (trace w) (artifact name) t) as [e|id ttl|e].
  - eexists _, _. split; [done |]. left. by eexists.
  - unfold deleteVideo. cbn [disk trace].
    rewrite existsSync_artifact, bool_decide_eq_true_2 by done.
    rewrite unlinkSync_artifact_any by done.
    destruct (unlinkFault _ (artifact name)) as [e|].
    + eexists _, _. split; [by rewrite <- app_assoc |].
      right. right.
      by exists {| videoId := id; title := ttl; publishAt := t |}, (message e).
    + eexists _, _. split; [done |]. right. left.
      by exists {| videoId := id; title := ttl; publishAt := t |}.
  - eexists _, _. split; [done |]. left. by eexists.
Qed.

(** What a run of the loop achieves whatever the removals do. *)
Record loop_post_any (schedule : list Z) (i : nat) (entries : gmap string Z)
    (todo : list string) (new : list publish_result) (w' : world) : Prop := {
  any_kinds : Forall (fun r => is_failed r = negb (is_uploaded r) /\ is_Some (success r)) new;
  any_in_todo : forall r, r ∈ new -> videoPath r ∈ todo;
  any_covered : forall p, p ∈ todo -> p ∈ videoPath <$> new;
  any_length : (length todo <= length new)%nat;
  any_failed : NoDup (failedPaths new);
  any_uploaded : NoDup (uploadedPaths new);
  any_slots : forall j res p t, new !! j = Some (Uploaded res p t) ->
      publishAt res = t /\
      exists k, (k <= j)%nat /\ todo !! k = Some p /\ schedule !! (i + k)%nat = Some t;
  any_disk : exists entries', disk w' = Present entries' /\
      forall name, entries' !! name =
        if decide (artifact name ∈ todo /\ artifact name ∉ failedPaths new)
        then None else entries !! name
}.

Lemma uploadLoop_post_any schedule todo : forall i w results entries,
  disk w = Present entries ->
  NoDup todo ->
  Forall (fun p => exists name, p = artifact name /\ is_Some (entries !! name)) todo ->
  (i + length todo <= length schedule)%nat ->
  exists new w',
    uploadLoop dirname platform unlinkFault schedule i todo w results = (results ++ new, w') /\
    loop_post_any schedule i entries todo new w'.
Proof.
  induction todo as [|p todo IH]; intros i w results entries Hd Hnd Hex Hlen.
  { exists [], w. simpl. rewrite app_nil_r. split; [done |].
    split.
    - constructor.
    - by intros r ?%elem_of_nil.
    - by intros q ?%elem_of_nil.
    - done.
    - constructor.
    - constructor.
    - intros j res q t. by rewrite lookup_nil.
    - exists entries. split; [done |]. intros name.
      rewrite decide_False; [done |]. by intros [?%elem_of_nil _]. }
  apply NoDup_cons in Hnd as [Hp Hnd].
  apply Forall_cons in Hex as [(name & -> & Hname) Hex].
  simpl in Hlen.
  destruct (lookup_lt_is_Some_2 schedule i ltac:(lia)) as [t Ht].
  destruct (uploadStep_any schedule i name w results entries t Hd Hname Ht)
    as (g & w1 & Hstep & Hitem).
  cbn [uploadLoop]. rewrite Hstep.
  (* the entries after the step, and the summary of the step *)
  assert (exists entries1,
            disk w1 = Present entries1 /\
            (forall n, n <> name -> entries1 !! n = entries !! n) /\
            (entries1 !! name = if decide (artifact name ∈ failedPaths g)
                                then entries !! name else None) /\
            (failedPaths g = [] \/ failedPaths g = [artifact name]) /\
            (uploadedPaths g = [] \/ uploadedPaths g = [artifact name]) /\
            Forall (fun r => is_failed r = negb (is_uploaded r) /\ is_Some (success r)) g /\
            (forall r, r ∈ g -> videoPath r = artifact name) /\
            (exists r g', g = r :: g') /\
            (forall j res p' t', g !! j = Some (Uploaded res p' t') ->
               publishAt res = t' /\ p' = artifact name /\ t' = t))
    as (entries1 & Hd1 & Hother & Hself & Hfail & Hupl & Hkinds & Hpath & Hne & Hslot).
  { destruct Hitem as [(msg & -> & Hw1) | [(res & Hres & -> & Hw1) | (res & msg & Hres & -> & Hw1)]].
    - exists entries. split_and!; try done.
      + csimpl. by rewrite decide_True by apply list_elem_of_here.
      + by right.
      + by left.
      + by repeat constructor.
      + by intros r ->%list_elem_of_singleton.
      + by eexists _, _.
      + intros [|[|j]] ????; done.
    - exists (delete name entries). split_and!; try done.
      + intros n Hn. by rewrite lookup_delete_ne.
      + csimpl. by rewrite lookup_delete_eq.
      + by left.
      + by right.
      + by repeat constructor.
      + by intros r ->%list_elem_of_singleton.
      + by eexists _, _.
      + intros [|[|j]] ???; [| done | done]. by intros [= <- <- <-].
    - exists entries. split_and!; try done.
      + csimpl. by rewrite decide_True by apply list_elem_of_here.
      + by right.
      + by right.
      + by repeat constructor.
      + intros r [->| ->%list_elem_of_singleton]%elem_of_cons; done.
      + by eexists _, _.
      + intros [|[|[|j]]] ???; [| done | done | done]. by intros [= <- <- <-]. }
  destruct (IH (S i) w1 (results ++ g) entries1)
    as (new & w' & -> & [P1 P2 P3 P4 P5 P6 P7 (entries' & P8 & P8')]); [done | done | | lia |].
  { apply Forall_forall. intros q Hq. rewrite Forall_forall in Hex.
    destruct (Hex q Hq) as (n & -> & Hn). exists n. split; [done |].
    rewrite Hother; [done |]. by intros ->. }
  assert (forall r, r ∈ new -> videoPath r <> artifact name) as Hfresh.
  { intros r Hr Heq. apply Hp. rewrite <- Heq. by apply P2. }
  assert (artifact name ∉ failedPaths new) as Hnf.
  { intros (r & Heq & [_ Hr]%list_elem_of_filter)%list_elem_of_fmap.
    by apply (Hfresh r). }
  assert (artifact name ∉ uploadedPaths new) as Hnu.
  { intros (r & Heq & [_ Hr]%list_elem_of_filter)%list_elem_of_fmap.
    by apply (Hfresh r). }
  exists (g ++ new), w'. split; [by rewrite <- app_assoc |].
  split.
  - by apply Forall_app.
  - intros r [Hr|Hr]%elem_of_app.
    + rewrite (Hpath r Hr). apply list_elem_of_here.
    + by apply list_elem_of_further, P2.
  - intros q [->|Hq]%elem_of_cons; rewrite fmap_app, elem_of_app.
    + left. destruct Hne as (r & g' & ->). rewrite <- (Hpath r); [| apply list_elem_of_here].
      apply list_elem_of_fmap_2, list_elem_of_here.
    + right. by apply P3.
  - rewrite length_app. destruct Hne as (r & g' & ->). simpl. lia.
  - rewrite filter_app, fmap_app.
    destruct Hfail as [-> | ->]; [done |]. by apply NoDup_cons.
  - rewrite filter_app, fmap_app.
    destruct Hupl as [-> | ->]; [done |]. by apply NoDup_cons.
  - intros j res p' t' Hj.
    destruct (lookup_app_Some g new j (Uploaded res p' t')) as [[Hg|[Hge Hn]] _]; [done | |].
    + destruct (Hslot j res p' t' Hg) as (Hres & -> & ->).
      split; [done |]. exists 0%nat. rewrite Nat.add_0_r. split_and!; [lia | done | done].
    + destruct (P7 _ _ _ _ Hn) as (Hres & k & Hk & Htodo & Hsched).
      split; [done |]. exists (S k). split_and!.
      * destruct Hne as (r & g' & ->). simpl in *. lia.
      * done.
      * by rewrite Nat.add_succ_r.
  - exists entries'. split; [done |]. intros n. rewrite P8'.
    rewrite filter_app, fmap_app.
    destruct (decide (n = name)) as [->|Hn].
    + rewrite decide_False by (by intros [? _]).
      rewrite Hself. destruct Hfail as [Hf | Hf]; rewrite Hf.
      * rewrite decide_False by apply not_elem_of_nil.
        rewrite decide_True; [done |]. split; [apply list_elem_of_here | done].
      * rewrite decide_True by apply list_elem_of_here.
        rewrite decide_False; [done |]. intros [_ H]. apply H, list_elem_of_here.
    + rewrite Hother by done.
      assert (artifact n <> artifact name) as Hne' by (by intros ?%(inj _)).
      assert (artifact n ∈ artifact name :: todo <-> artifact n ∈ todo) as Hin.
      { rewrite elem_of_cons. split; [intros [H|H]; [by apply Hne' in H | done] | by right]. }
      assert (artifact n ∈ failedPaths g ++ failedPaths new <-> artifact n ∈ failedPaths new)
        as Hfl.
      { rewrite elem_of_app. split; [| by right].
        destruct Hfail as [-> | ->]; (intros [H|H]; [| done]).
        - by apply elem_of_nil in H.
        - by apply list_elem_of_singleton, Hne' in H. }
      destruct (decide (artifact n ∈ todo /\ _)) as [[Ha Hb]|H1];
        destruct (decide (artifact n ∈ artifact name :: todo /\ _)) as [[Hc He]|H2];
        try done; exfalso.
      * apply H2. split; [by apply Hin | by rewrite Hfl].
      * apply H1. split; [by apply Hin | by rewrite <- Hfl].
Qed.

Lemma live_run_loop_any clock w :
  uploadAllPending dirname platform unlinkFault clock false w =
    uploadLoop dirname platform unlinkFault
      (calculateSchedule clock (length (pendingOf (disk w)))) 0
      (pendingOf (disk w)) w [].
Proof.
  unfold uploadAllPending. cbv zeta.
  destruct (pendingOf (disk w)) as [|p l]; done.
Qed.

Lemma live_run_Missing_any clock dryRun w :
  disk w = Missing ->
  uploadAllPending dirname platform unlinkFault clock dryRun w = ([], w).
Proof. intros H. unfold uploadAllPending. by rewrite H. Qed.

Lemma live_run_post_any clock w entries :
  disk w = Present entries ->
  loop_post_any (calculateSchedule clock (length (pendingOf (disk w)))) 0 entries
    (pendingOf (disk w))
    (uploadAllPending dirname platform unlinkFault clock false w).1
    (uploadAllPending dirname platform unlinkFault clock false w).2.
Proof.
  intros Hd. rewrite live_run_loop_any.
  destruct (uploadLoop_post_any (calculateSchedule clock (length (pendingOf (disk w))))
              (pendingOf (disk w)) 0 w [] entries) as (new & w' & -> & Hpost).
  - done.
  - apply NoDup_getPendingVideos.
  - apply Forall_forall. intros p. rewrite Hd.
    intros (name & -> & _ & H)%elem_of_getPendingVideos. by exists name.
  - by rewrite calculateSchedule_length.
  - done.
Qed.

(** After the loop the queue holds the artifacts with a failure result. *)
Lemma loop_post_any_after schedule entries w new w' :
  disk w = Present entries ->
  loop_post_any schedule 0 entries (pendingOf (disk w)) new w' ->
  pendingOf (disk w') ≡ₚ failedPaths new.
Proof.
  intros Hd [Hk Hin _ _ Hnf _ _ (entries' & Hd' & Hlook)].
  apply NoDup_Permutation; [apply NoDup_getPendingVideos | done |].
  intros p. rewrite Hd'. rewrite elem_of_getPendingVideos. split.
  - intros (name & -> & He & His). rewrite Hlook in His.
    case_decide as Hc; [by destruct His |].
    destruct (decide (artifact name ∈ failedPaths new)) as [|Hn]; [done |].
    exfalso. apply Hc. split; [| done].
    rewrite Hd. apply elem_of_getPendingVideos. by exists name.
  - intros Hp.
    assert (p ∈ pendingOf (disk w)) as Hq.
    { apply list_elem_of_fmap in Hp as (r & -> & [_ Hr]%list_elem_of_filter). by apply Hin. }
    rewrite Hd in Hq. apply elem_of_getPendingVideos in Hq as (name & -> & He & His).
    exists name. split_and!; [done | done |].
    rewrite Hlook. rewrite decide_False; [done |]. by intros [_ ?].
Qed.

(** Environments that agree give the same run. *)
Lemma uploadLoop_fault_ext (fault : list event -> string -> option js_error)
    schedule todo :
  (forall tr p, unlinkFault tr p = fault tr p) ->
  forall i w results,
    uploadLoop dirname platform unlinkFault schedule i todo w results
    = uploadLoop dirname platform fault schedule i todo w results.
Proof.
  intros Hext. induction todo as [|p todo IH]; intros i w results; [done |].
  cbn [uploadLoop].
  assert (uploadStep dirname platform unlinkFault schedule i p w results
          = uploadStep dirname platform fault schedule i p w results) as ->; [| by
    destruct (uploadStep dirname platform fault schedule i p w results)].
  unfold uploadStep. destruct (schedule !! i); [| done].
  destruct (uploadVideo dirname platform w p z) as [[res|e] w1]; [| done].
  assert (deleteVideo dirname unlinkFault w1 p = deleteVideo dirname fault w1 p) as ->; [| done].
  unfold deleteVideo, unlinkSync. by rewrite Hext.
Qed.

Lemma live_run_noFault clock w :
  (forall tr p, unlinkFault tr p = None) ->
  uploadAllPending dirname platform unlinkFault clock false w
  = uploadAllPending dirname platform noFault clock false w.
Proof.
  intros H. rewrite live_run_loop_any, live_run_loop.
  by apply uploadLoop_fault_ext.
Qed.

(** ** Claims about the queue and the orchestrator *)

(** C1. After a live run of uploadAllPending in which files that are there
    can be removed ([noFault]), for any behaviour of the platform, the
    pending queue holds exactly the artifacts whose upload
    failed, each once; the queue before the run splits into the uploaded
    artifacts and the remaining ones, so nothing is duplicated and nothing
    disappears without an upload result; an uploaded artifact is gone from
    the disk; and in the events of the run every removal comes directly after
    the confirmed upload of the same file. *)
Theorem queue_after_live_run clock w :
  let run := uploadAllPending dirname platform noFault clock false w in
  let before := pendingOf (disk w) in
  let after := pendingOf (disk run.2) in
  after ≡ₚ failedPaths run.1 /\
  length after = length (filter (fun r => is_failed r) run.1) /\
  before ≡ₚ uploadedPaths run.1 ++ after /\
  NoDup before /\ NoDup after /\
  (forall p, p ∈ uploadedPaths run.1 -> existsSync dirname (disk run.2) p = false) /\
  exists tr, trace run.2 = trace w ++ tr /\ unlinks_follow_success None tr.
Proof.
  cbv zeta. destruct (disk w) as [|entries] eqn:Hd.
  { rewrite live_run_Missing by done. simpl. rewrite Hd.
    split_and!; try done; try constructor.
    exists []. by rewrite app_nil_r. }
  pose proof (live_run_post clock w entries Hd) as Hpost.
  set (run := uploadAllPending dirname platform noFault clock false w) in *.
  pose proof (NoDup_getPendingVideos dirname (disk w)) as Hnd.
  pose proof (NoDup_getPendingVideos dirname (disk run.2)) as Hnd'.
  assert (pendingOf (disk run.2) ≡ₚ failedPaths run.1) as Hperm.
  { apply NoDup_Permutation; [done | |].
    - apply NoDup_paths_filter. by rewrite (post_paths _ _ _ _ _ Hpost).
    - intros p. rewrite (loop_post_after entries w run.1 run.2 p Hd Hpost).
      by rewrite (loop_post_failed entries w _ run.1 run.2 p Hnd Hpost). }
  rewrite <- Hd. split_and!; try done.
  - by rewrite Hperm, length_fmap.
  - apply NoDup_Permutation; [done | |].
    + apply NoDup_app. split_and!; [| | done].
      * apply NoDup_paths_filter. by rewrite (post_paths _ _ _ _ _ Hpost).
      * intros p Hp. rewrite (loop_post_after entries w run.1 run.2 p Hd Hpost).
        by intros [_ ?].
    + intros p. rewrite elem_of_app.
      rewrite (loop_post_after entries w run.1 run.2 p Hd Hpost).
      split.
      * intros Hp. destruct (decide (p ∈ uploadedPaths run.1)); [by left | by right].
      * intros [Hp|[Hp _]]; [| done].
        rewrite <- (post_paths _ _ _ _ _ Hpost).
        apply list_elem_of_fmap in Hp as (r & -> & [_ Hr]%list_elem_of_filter).
        by apply list_elem_of_fmap_2.
  - intros p Hp.
    destruct (existsSync dirname (disk run.2) p) eqn:He; [| done]. exfalso.
    assert (p ∈ pendingOf (disk w)) as Hin.
    { rewrite <- (post_paths _ _ _ _ _ Hpost).
      apply list_elem_of_fmap in Hp as (r & -> & [_ Hr]%list_elem_of_filter).
      by apply list_elem_of_fmap_2. }
    rewrite Hd in Hin. apply elem_of_getPendingVideos in Hin as (name & -> & _ & _).
    destruct (post_disk _ _ _ _ _ Hpost) as (entries' & Hd' & Hlook).
    rewrite Hd', existsSync_artifact, Hlook, decide_True in He by done.
    apply bool_decide_eq_true in He. by destruct He.
  - destruct (post_trace _ _ _ _ _ Hpost) as (tr & Htr & Hok). by exists tr.
Qed.

(** C5. A live run of uploadAllPending always returns, whatever the
    platform and the file system do: every pending artifact gets a result,
    every result is for a pending artifact and has a success status, and an
    artifact with a failure result is still on disk and still pending after
    the run, so an error of one item ends neither the loop nor the call.
    When [fs.unlinkSync] does not throw for a file that is there, there is
    exactly one result per pending artifact, in queue order, and the platform
    accounts for each: a failure carries the message of the error the
    platform raised for that file, an upload the identifier it returned. *)
Theorem failure_isolation clock w :
  let run := uploadAllPending dirname platform unlinkFault clock false w in
  (forall p, p ∈ pendingOf (disk w) -> p ∈ videoPath <$> run.1) /\
  (forall r, r ∈ run.1 -> videoPath r ∈ pendingOf (disk w)) /\
  Forall (fun r => is_Some (success r)) run.1 /\
  (forall msg p, Failed msg p ∈ run.1 ->
     existsSync dirname (disk run.2) p = true /\ p ∈ pendingOf (disk run.2)) /\
  ((forall tr p, unlinkFault tr p = None) ->
     videoPath <$> run.1 = pendingOf (disk w) /\
     length run.1 = length (pendingOf (disk w)) /\
     Forall (fun r => justified platform (trace run.2) r) run.1).
Proof.
  cbv zeta. destruct (disk w) as [|entries] eqn:Hd.
  { split_and!; [| | | | intros Hno]; rewrite ?live_run_Missing_any by done; simpl.
    - by intros p ?%elem_of_nil.
    - by intros r ?%elem_of_nil.
    - done.
    - by intros msg p ?%elem_of_nil.
    - done. }
  pose proof (live_run_post_any clock w entries Hd) as Hany.
  rewrite <- Hd. split_and!.
  - apply (any_covered _ _ _ _ _ _ Hany).
  - apply (any_in_todo _ _ _ _ _ _ Hany).
  - eapply Forall_impl; [apply (any_kinds _ _ _ _ _ _ Hany) |]. by intros r [_ ?].
  - intros msg p Hin.
    assert (p ∈ pendingOf (disk (uploadAllPending dirname platform unlinkFault clock false w).2))
      as Hafter.
    { rewrite (loop_post_any_after _ entries w _ _ Hd Hany).
      apply list_elem_of_fmap. exists (Failed msg p). split; [done |].
      by apply list_elem_of_filter. }
    split; [by apply getPendingVideos_exist | done].
  - intros Hno. rewrite (live_run_noFault clock w Hno).
    pose proof (live_run_post clock w entries Hd) as Hpost.
    assert (videoPath <$> (uploadAllPending dirname platform noFault clock false w).1
            = pendingOf (disk w)) as Hpaths by apply (post_paths _ _ _ _ _ Hpost).
    split_and!; [done | by rewrite <- Hpaths, length_fmap |].
    apply (post_justified _ _ _ _ _ Hpost).
Qed.

(** C6. With [dryRun] set, uploadAllPending leaves the world as it was (the
    disk and the record of calls to the platform), its result depends neither
    on the platform nor on whether files can be removed, and it returns one result per pending artifact, in queue
    order, pairing artifact [i] with slot [i] of the schedule, none of them
    with a success status. *)
Theorem dry_run_pure clock w :
  let run := uploadAllPending dirname platform unlinkFault clock true w in
  let pending := pendingOf (disk w) in
  run.2 = w /\
  (forall platform' unlinkFault',
     uploadAllPending dirname platform' unlinkFault' clock true w = run) /\
  length run.1 = length pending /\
  (forall i p, pending !! i = Some p ->
     exists slot, calculateSchedule clock (length pending) !! i = Some slot /\
                  run.1 !! i = Some (Preview p (Some slot))) /\
  Forall (fun r => success r = None) run.1.
Proof.
  cbv zeta. unfold uploadAllPending. cbv zeta.
  destruct (Nat.eqb_spec (length (pendingOf (disk w))) 0) as [H0|H0]; cbn [fst snd].
  { apply nil_length_inv in H0. rewrite H0. by split_and!. }
  split_and!.
  - done.
  - done.
  - by rewrite length_imap.
  - intros i p Hi.
    destruct (lookup_lt_is_Some_2 (calculateSchedule clock (length (pendingOf (disk w)))) i)
      as [slot Hslot].
    { rewrite calculateSchedule_length. by eapply lookup_lt_Some. }
    exists slot. split; [done |]. by rewrite list_lookup_imap, Hi, Hslot.
  - apply Forall_lookup. intros i r. rewrite list_lookup_imap.
    destruct (pendingOf (disk w) !! i); [| done]. by intros [= <-].
Qed.

(** C7. getPendingVideos of a storage location that does not exist is the
    empty list, not an error, and uploadAllPending of an empty queue, dry or
    live, returns the empty list of results and leaves the world alone. *)
Theorem empty_queue_is_no_error clock dryRun w :
  pendingOf Missing = [] /\
  (disk w = Missing -> pendingOf (disk w) = []) /\
  (pendingOf (disk w) = [] ->
   uploadAllPending dirname platform unlinkFault clock dryRun w = ([], w)).
Proof.
  split_and!; [done | by intros -> |].
  intros H. unfold uploadAllPending. by rewrite H.
Qed.

(** C9. deleteVideo of a path that is absent returns normally and changes
    nothing, and whenever a call returns, for any path and whatever the file
    system does, the path is absent afterwards and the same call again
    returns as well, with the same world; deleteVideo of an artifact path
    that can be removed never throws, leaves the artifact absent, and a
    second call on that path returns normally and changes nothing. *)
Theorem deleteVideo_idempotent w path name :
  (existsSync dirname (disk w) path = false ->
   deleteVideo dirname unlinkFault w path = Return w) /\
  (forall w1, deleteVideo dirname unlinkFault w path = Return w1 ->
     existsSync dirname (disk w1) path = false /\
     deleteVideo dirname unlinkFault w1 path = Return w1) /\
  (exists w1, deleteVideo dirname noFault w (artifact name) = Return w1 /\
     existsSync dirname (disk w1) (artifact name) = false /\
     deleteVideo dirname noFault w1 (artifact name) = Return w1).
Proof.
  assert (forall fault w0 p, existsSync dirname (disk w0) p = false ->
            deleteVideo dirname fault w0 p = Return w0) as Habsent.
  { intros fault w0 p H. unfold deleteVideo. by rewrite H. }
  assert (forall fault p w1, deleteVideo dirname fault w p = Return w1 ->
            existsSync dirname (disk w1) p = false) as Hgone.
  { intros fault p w1. unfold deleteVideo.
    destruct (existsSync dirname (disk w) p) eqn:He; [| by intros [= <-]].
    destruct (disk w) as [|entries]; [done |].
    unfold existsSync in He. unfold unlinkSync.
    destruct (entry_of dirname p) as [n|] eqn:Hn.
    - destruct (bool_decide (is_Some (entries !! n))); [| done].
      destruct (fault (trace w) p); [done |].
      intros [= <-]. cbn [disk]. apply entry_of_Some in Hn as ->.
      rewrite existsSync_artifact, lookup_delete_eq.
      apply bool_decide_eq_false_2. by intros [? ?].
    - by destruct (String.eqb p (outputDir dirname)). }
  split_and!.
  - apply Habsent.
  - intros w1 H. split; [by eapply Hgone |]. apply Habsent. by eapply Hgone.
  - assert (exists w1, deleteVideo dirname noFault w (artifact name) = Return w1) as [w1 H1].
    { unfold deleteVideo. destruct (disk w) as [|entries]; [by eexists |].
      rewrite existsSync_artifact.
      destruct (bool_decide (is_Some (entries !! name))) eqn:Hb; [| by eexists].
      apply bool_decide_eq_true in Hb. rewrite unlinkSync_artifact by done. by eexists. }
    exists w1. split_and!; [done | by eapply Hgone |]. apply Habsent. by eapply Hgone.
Qed.

End Orchestrator.

(** ** The scenario of the specification: B fails, A and C are published *)

Example demo_pending :
  getPendingVideos demoDir demoDisk =
    ["/app/output/a.mp4"; "/app/output/b.mp4"; "/app/output/c.mp4"].
Proof. vm_compute. reflexivity. Qed.

Example demo_live_run :
  (uploadAllPending demoDir demoPlatform noFault (frozen at_1500) false demoWorld).1 =
    [Uploaded {| videoId := "id"; title := "Daily Dose of Internet Memes #Shorts";
                 publishAt := 1705359600000 |} "/app/output/a.mp4" 1705359600000;
     Failed "quotaExceeded" "/app/output/b.mp4";
     Uploaded {| videoId := "id"; title := "Daily Dose of Internet Memes #Shorts";
                 publishAt := 1705363200000 |} "/app/output/c.mp4" 1705363200000]
  /\ getPendingVideos demoDir
       (disk (uploadAllPending demoDir demoPlatform noFault (frozen at_1500) false demoWorld).2)
     = ["/app/output/b.mp4"].
Proof. vm_compute. auto. Qed.

Lemma queue_after_live_run_witness :
  existsSync demoDir
    (disk (uploadAllPending demoDir demoPlatform noFault (frozen at_1500) false demoWorld).2)
    "/app/output/a.mp4" = false.
Proof.
  pose proof (queue_after_live_run demoDir demoPlatform (frozen at_1500) demoWorld) as H.
  cbv zeta in H. destruct H as (_ & _ & _ & _ & _ & H & _).
  apply H. vm_compute. apply list_elem_of_here.
Defined.

Lemma failure_isolation_witness :
  videoPath <$> (uploadAllPending demoDir demoPlatform noFault (frozen at_1500) false demoWorld).1
    = getPendingVideos demoDir (disk demoWorld) /\
  length (uploadAllPending demoDir demoPlatform noFault (frozen at_1500) false demoWorld).1
    = length (getPendingVideos demoDir (disk demoWorld)) /\
  Forall (fun r =>
            justified demoPlatform
              (trace (uploadAllPending demoDir demoPlatform noFault (frozen at_1500) false
                        demoWorld).2) r)
    (uploadAllPending demoDir demoPlatform noFault (frozen at_1500) false demoWorld).1.
Proof.
  pose proof (failure_isolation demoDir demoPlatform noFault (frozen at_1500) demoWorld) as H.
  cbv zeta in H. destruct H as (_ & _ & _ & _ & H).
  apply H. intros tr p. reflexivity.
Defined.

(** When A cannot be removed, its upload is followed by a failure result
    for the same file, which stays in the queue next to B. *)
Example removal_fault_doubles_result :
  (uploadAllPending demoDir demoPlatform demoFault (frozen at_1500) false demoWorld).1 =
    [Uploaded {| videoId := "id"; title := "Daily Dose of Internet Memes #Shorts";
                 publishAt := 1705359600000 |} "/app/output/a.mp4" 1705359600000;
     Failed "EACCES" "/app/output/a.mp4";
     Failed "quotaExceeded" "/app/output/b.mp4";
     Uploaded {| videoId := "id"; title := "Daily Dose of Internet Memes #Shorts";
                 publishAt := 1705363200000 |} "/app/output/c.mp4" 1705363200000]
  /\ getPendingVideos demoDir
       (disk (uploadAllPending demoDir demoPlatform demoFault (frozen at_1500) false demoWorld).2)
     = ["/app/output/a.mp4"; "/app/output/b.mp4"].
Proof. vm_compute. auto. Qed.

Lemma dry_run_pure_witness :
  exists slot,
    calculateSchedule (frozen at_1500) (length (getPendingVideos demoDir (disk demoWorld))) !! 1%nat
      = Some slot /\
    (uploadAllPending demoDir demoPlatform noFault (frozen at_1500) true demoWorld).1 !! 1%nat
      = Some (Preview "/app/output/b.mp4" (Some slot)).
Proof.
  pose proof (dry_run_pure demoDir demoPlatform noFault (frozen at_1500) demoWorld) as H.
  cbv zeta in H. destruct H as (_ & _ & _ & H & _).
  apply H. vm_compute. reflexivity.
Defined.

Lemma empty_queue_is_no_error_witness :
  uploadAllPending demoDir demoPlatform noFault (frozen at_1500) false {| disk := Missing; trace := [] |}
  = ([], {| disk := Missing; trace := [] |}).
Proof.
  pose proof (empty_queue_is_no_error demoDir demoPlatform noFault (frozen at_1500) false
                {| disk := Missing; trace := [] |}) as H.
  destruct H as (_ & _ & H). apply H. reflexivity.
Defined.

Lemma deleteVideo_idempotent_witness :
  deleteVideo demoDir noFault {| disk := Missing; trace := [] |} "/app/output/a.mp4"
  = Return {| disk := Missing; trace := [] |}.
Proof.
  pose proof (deleteVideo_idempotent demoDir noFault {| disk := Missing; trace := [] |}
                "/app/output/a.mp4" "a.mp4") as H.
  destruct H as (H & _). apply H. reflexivity.
Defined.

(** C8. getPendingVideos keeps every entry whose name ends in [.mp4], hidden
    or not: a directory that holds only the hidden file [._clip.mp4] yields
    that file as pending. *)
Theorem hidden_entry_is_listed :
  hidden "._clip.mp4" = true /\
  getPendingVideos demoDir hiddenDisk = ["/app/output/._clip.mp4"].
Proof. vm_compute. auto. Qed.

(** * Further properties of the code *)

(** ** calculateSchedule *)

(** Slot [i] is at 18:00 plus [i] gaps of the reference day, wrapped at
    midnight: its reference hour is [(peakHoursEST_start + i / 2) mod 24],
    its minute [(i * gapMinutes) mod 60], whatever the clock and whether or
    not the minimum-lead check moved it. *)
Theorem slot_reference_time clock count i slot :
  calculateSchedule clock count !! i = Some slot ->
  estHour slot = (peakHoursEST_start + Z.of_nat i / 2) mod 24 /\
  getUTCMinutes slot = (Z.of_nat i * gapMinutes) mod 60.
Proof.
  intros [_ ->]%calculateSchedule_lookup_Some.
  assert (forall t, estHour (t + msPerDay) = estHour t) as Hday.
  { intros t. unfold estHour. by rewrite getUTCHours_next_day. }
  assert (estHour (nominal clock i) = (peakHoursEST_start + Z.of_nat i / 2) mod 24 /\
          getUTCMinutes (nominal clock i) = (Z.of_nat i * gapMinutes) mod 60) as [Hh Hm].
  { rewrite nominal_eq. set (d := Day _ + _).
    set (q := Z.of_nat i / 2). set (h := (23 + q) mod 24).
    assert (0 <= h < 24) as Hh by (apply Z.mod_pos_bound; lia).
    assert (exists r, 0 <= r < 2 /\ Z.of_nat i = 2 * q + r) as (r & Hr & Hi).
    { exists (Z.of_nat i mod 2). subst q. Z.div_mod_to_equations. lia. }
    assert (slotMinuteOfDay (Z.of_nat i) = 60 * h + 30 * r) as ->.
    { unfold slotMinuteOfDay, gapMinutes. subst h. rewrite Hi.
      Z.div_mod_to_equations. lia. }
    assert ((d * msPerDay + (60 * h + 30 * r) * msPerMinute) / msPerHour = d * 24 + h) as Hdiv.
    { unfold msPerDay, msPerMinute, msPerHour. Z.div_mod_to_equations. lia. }
    assert ((d * msPerDay + (60 * h + 30 * r) * msPerMinute) / msPerMinute
              = d * 1440 + 60 * h + 30 * r) as Hmin.
    { unfold msPerDay, msPerMinute. Z.div_mod_to_equations. lia. }
    unfold estHour, getUTCHours, getUTCMinutes, HourFromTime, MinFromTime, js_rem.
    rewrite Hdiv, Hmin.
    assert ((d * 24 + h) mod 24 = h) as -> by (Z.div_mod_to_equations; lia).
    unfold estOffset, peakHoursEST_start, gapMinutes.
    rewrite Z.rem_mod_nonneg by lia. rewrite Hi. subst h.
    split; Z.div_mod_to_equations; lia. }
  destruct (advanced clock i); [| done].
  by rewrite Hday, getUTCMinutes_next_day.
Qed.

Lemma slot_reference_time_witness :
  estHour 1705363200000 = (peakHoursEST_start + Z.of_nat 2 / 2) mod 24 /\
  getUTCMinutes 1705363200000 = (Z.of_nat 2 * gapMinutes) mod 60.
Proof.
  apply (slot_reference_time (frozen at_1500) 3 2 1705363200000).
  vm_compute. reflexivity.
Defined.

(** No slot is more than two days after the moment of computation, as long
    as the clock moves at most 45 minutes during the call. *)
Theorem slot_within_two_days clock count i slot :
  clock (S i) <= clock 0%nat + 45 * msPerMinute ->
  calculateSchedule clock count !! i = Some slot ->
  slot < clock 0%nat + 2 * msPerDay.
Proof.
  intros Hclock [_ ->]%calculateSchedule_lookup_Some.
  pose proof (slotMinuteOfDay_range (Z.of_nat i)) as Hm.
  assert (Day (clock 0%nat) * msPerDay <= clock 0%nat) as Hd.
  { unfold Day, msPerDay. Z.div_mod_to_equations. lia. }
  destruct (advanced clock i) eqn:Hadv.
  - unfold advanced in Hadv. apply Z.ltb_lt in Hadv.
    revert Hclock Hadv. unfold minLead, msPerDay, msPerMinute. lia.
  - rewrite nominal_eq.
    destruct (scheduleForTomorrow (clock 0%nat)) eqn:Htom.
    + revert Hm Hd. unfold msPerDay, msPerMinute. lia.
    + revert Hm Hd. unfold msPerDay, msPerMinute. lia.
Qed.

Lemma slot_within_two_days_witness :
  1705446000000 < frozen at_2250 0%nat + 2 * msPerDay.
Proof.
  apply (slot_within_two_days (frozen at_2250) 2 0 1705446000000).
  - unfold frozen, msPerMinute. lia.
  - vm_compute. reflexivity.
Defined.

(** The times repeat after 48 slots: with the clock read once, items [i] and
    [i + 48] of a batch get the same timestamp. *)
Theorem schedule_period_48 t count i slot :
  calculateSchedule (frozen t) count !! (i + 48)%nat = Some slot ->
  calculateSchedule (frozen t) count !! i = Some slot.
Proof.
  intros [Hlt ->]%calculateSchedule_lookup_Some.
  rewrite calculateSchedule_lookup by lia. f_equal.
  assert (nominal (frozen t) (i + 48) = nominal (frozen t) i) as Hn.
  { rewrite !nominal_eq. f_equal. f_equal.
    unfold slotMinuteOfDay, gapMinutes. rewrite Nat2Z.inj_add.
    Z.div_mod_to_equations. lia. }
  unfold advanced. rewrite Hn. done.
Qed.

Lemma schedule_period_48_witness :
  calculateSchedule (frozen at_1500) 50 !! 1%nat = Some 1705361400000.
Proof.
  apply (schedule_period_48 at_1500 50 1 1705361400000).
  vm_compute. reflexivity.
Defined.

(** The usual run: started between 05:00 and 22:45 UTC (midnight to 17:45 in
    the reference timezone) with the clock read once and at most 12 items,
    slot [i] is exactly today's 23:00 UTC (18:00 reference time) plus [i]
    gaps, so the batch is strictly increasing in steps of [gapMinutes]. *)
Theorem schedule_usual_run t count i slot :
  5 * msPerHour <= TimeWithinDay t ->
  TimeWithinDay t + minLead <= 23 * msPerHour ->
  (count <= 12)%nat ->
  calculateSchedule (frozen t) count !! i = Some slot ->
  slot = Day t * msPerDay + 23 * msPerHour + Z.of_nat i * gapMs.
Proof.
  assert (TimeWithinDay t = t - Day t * msPerDay) as ->.
  { unfold TimeWithinDay, Day, msPerDay. Z.div_mod_to_equations. lia. }
  intros Hlo Hhi Hcount [Hlt ->]%calculateSchedule_lookup_Some.
  assert (scheduleForTomorrow t = false) as Htom.
  { destruct (scheduleForTomorrow t) eqn:H; [| done].
    apply scheduleForTomorrow_true in H.
    revert Hlo Hhi H. unfold minLead, msPerHour, msPerDay. lia. }
  unfold advanced. rewrite nominal_eq. unfold frozen.
  rewrite Htom, Z.add_0_r.
  assert (i < 12)%nat as Hi by lia.
  assert (slotMinuteOfDay (Z.of_nat i) =
            if Z.of_nat i <? 2 then 1380 + 30 * Z.of_nat i else 30 * Z.of_nat i - 60) as ->.
  { unfold slotMinuteOfDay, gapMinutes.
    destruct (Z.ltb_spec (Z.of_nat i) 2); Z.div_mod_to_equations; lia. }
  revert Hlo Hhi. unfold gapMs, gapMinutes, minLead, msPerHour, msPerDay, msPerMinute.
  intros Hlo Hhi.
  destruct (Z.ltb_spec (Z.of_nat i) 2) as [H2|H2].
  - destruct (Z.ltb_spec (Day t * 86400000 + (1380 + 30 * Z.of_nat i) * 60000)
                (t + 15 * 60 * 1000)); lia.
  - destruct (Z.ltb_spec (Day t * 86400000 + (30 * Z.of_nat i - 60) * 60000)
                (t + 15 * 60 * 1000)); lia.
Qed.

Lemma schedule_usual_run_witness :
  1705363200000 = Day at_1500 * msPerDay + 23 * msPerHour + Z.of_nat 2 * gapMs.
Proof.
  apply (schedule_usual_run at_1500 6 2 1705363200000).
  - vm_compute. discriminate.
  - vm_compute. discriminate.
  - lia.
  - vm_compute. reflexivity.
Defined.

(** ** The pending queue *)

Lemma StronglySorted_lookup_lt {A} (R : A -> A -> Prop) (l : list A) i j a b :
  StronglySorted R l -> (i < j)%nat -> l !! i = Some a -> l !! j = Some b -> R a b.
Proof.
  intros Hs. revert i j. induction Hs as [|x l Hs IH Hx]; intros i j Hij Hi Hj.
  { by rewrite lookup_nil in Hi. }
  destruct j as [|j]; [lia |]. simpl in Hj.
  destruct i as [|i].
  - simpl in Hi. injection Hi as ->. rewrite Forall_forall in Hx.
    apply Hx. by eapply list_elem_of_lookup_2.
  - simpl in Hi. apply (IH i j); [lia | done | done].
Qed.

Section QueueFacts.

Variable dirname : string.

Abbreviation artifact := (path_join (outputDir dirname)).
Abbreviation pendingOf := (getPendingVideos dirname).

Implicit Types (entries : gmap string Z) (w : world) (name path : string).

Lemma statSync_mtime_artifact entries name m :
  entries !! name = Some m ->
  statSync_mtime dirname (Present entries) (artifact name) = m.
Proof. intros H. unfold statSync_mtime. by rewrite entry_of_artifact, H. Qed.

(** getPendingVideos lists the artifacts oldest first: an artifact that comes
    earlier in the list was not modified later than one that comes after it. *)
Theorem pending_oldest_first entries i j n1 n2 m1 m2 :
  (i < j)%nat ->
  getPendingVideos dirname (Present entries) !! i = Some (artifact n1) ->
  getPendingVideos dirname (Present entries) !! j = Some (artifact n2) ->
  entries !! n1 = Some m1 ->
  entries !! n2 = Some m2 ->
  m1 <= m2.
Proof.
  intros Hij Hi Hj H1 H2.
  pose proof (getPendingVideos_oldest_first dirname (Present entries)) as Hs.
  pose proof (StronglySorted_lookup_lt _ _ _ _ _ _ Hs Hij Hi Hj) as Hle.
  cbv beta in Hle.
  by rewrite (statSync_mtime_artifact _ _ _ H1), (statSync_mtime_artifact _ _ _ H2) in Hle.
Qed.

(** getPendingVideos lists exactly the entries of the directory whose name
    ends in [.mp4], each once, under the path [path.join] builds for it. *)
Theorem pending_exactly_mp4 entries :
  NoDup (pendingOf (Present entries)) /\
  (forall path, path ∈ pendingOf (Present entries) <->
     exists name, path = artifact name /\ endsWith name ".mp4" = true /\
                  is_Some (entries !! name)) /\
  length (pendingOf (Present entries)) =
    length (filter (fun f => endsWith f ".mp4" = true) (map_to_list entries).*1).
Proof.
  split_and!.
  - apply NoDup_getPendingVideos.
  - intros path. apply elem_of_getPendingVideos.
  - by rewrite getPendingVideos_Present, length_fmap.
Qed.

(** deleteVideo of an artifact that is on disk and can be removed
    ([noFault]) removes that artifact and no other from the pending list,
    and records one removal. *)
Theorem deleteVideo_removes_one w entries name :
  disk w = Present entries ->
  is_Some (entries !! name) ->
  exists w',
    deleteVideo dirname noFault w (artifact name) = Return w' /\
    trace w' = trace w ++ [EvUnlink (artifact name)] /\
    forall path, path ∈ pendingOf (disk w') <->
                 path ∈ pendingOf (disk w) /\ path <> artifact name.
Proof.
  intros Hd Hin. unfold deleteVideo. rewrite Hd.
  rewrite existsSync_artifact, bool_decide_eq_true_2, unlinkSync_artifact by done.
  eexists. split_and!; [done | done |]. cbn [disk].
  intros path. rewrite !elem_of_getPendingVideos. split.
  - intros (n & -> & He & Hn). destruct (decide (n = name)) as [->|Hne].
    + rewrite lookup_delete_eq in Hn. by destruct Hn.
    + rewrite lookup_delete_ne in Hn by done. split; [by exists n |].
      by intros ?%(inj _).
  - intros [(n & -> & He & Hn) Hne]. exists n. split_and!; [done | done |].
    rewrite lookup_delete_ne; [done |]. by intros ->.
Qed.

End QueueFacts.

Lemma pending_oldest_first_witness : 1 <= 2.
Proof.
  apply (pending_oldest_first demoDir
           (<["a.mp4" := 1]> (<["b.mp4" := 2]> (<["c.mp4" := 3]> ∅))) 0 1 "a.mp4" "b.mp4").
  - lia.
  - vm_compute. reflexivity.
  - vm_compute. reflexivity.
  - vm_compute. reflexivity.
  - vm_compute. reflexivity.
Defined.

Lemma deleteVideo_removes_one_witness :
  exists w',
    deleteVideo demoDir noFault demoWorld (path_join (outputDir demoDir) "b.mp4") = Return w' /\
    trace w' = trace demoWorld ++ [EvUnlink (path_join (outputDir demoDir) "b.mp4")] /\
    forall path, path ∈ getPendingVideos demoDir (disk w') <->
      path ∈ getPendingVideos demoDir (disk demoWorld) /\
      path <> path_join (outputDir demoDir) "b.mp4".
Proof.
  apply (deleteVideo_removes_one demoDir demoWorld
           (<["a.mp4" := 1]> (<["b.mp4" := 2]> (<["c.mp4" := 3]> ∅))) "b.mp4").
  - reflexivity.
  - vm_compute. by eexists.
Defined.

(** ** uploadVideo and the upload loop *)

Section OrchestratorFacts.

Variable dirname : string.
Variable platform : list event -> string -> Z -> insert_outcome.
Variable unlinkFault : list event -> string -> option js_error.

Abbreviation artifact := (path_join (outputDir dirname)).
Abbreviation pendingOf := (getPendingVideos dirname).
Abbreviation uploadedPaths results := (videoPath <$> filter (fun r => is_uploaded r) results).

Implicit Types (entries : gmap string Z) (w : world) (name path : string).
Implicit Types (results new : list publish_result) (schedule : list Z).

Lemma attempts_app tr1 tr2 : attempts (tr1 ++ tr2) = attempts tr1 ++ attempts tr2.
Proof. apply omap_app. Qed.

Lemma removals_app tr1 tr2 : removals (tr1 ++ tr2) = removals tr1 ++ removals tr2.
Proof. apply omap_app. Qed.

(** What the loop does, item by item: the upload attempts and the uploaded
    results pair each artifact with the slot at its index. *)
Record loop_pairing (schedule : list Z) (i : nat) (w : world) (todo : list string)
    (new : list publish_result) (w' : world) : Prop := {
  pair_trace : exists tr, trace w' = trace w ++ tr /\
      attempts tr `sublist_of` zip todo (drop i schedule) /\
      removals tr = uploadedPaths new;
  pair_results : forall k res p t, new !! k = Some (Uploaded res p t) ->
      todo !! k = Some p /\ schedule !! (i + k)%nat = Some t /\ publishAt res = t
}.

Lemma uploadLoop_pairing schedule todo : forall i w results entries,
  disk w = Present entries ->
  NoDup todo ->
  Forall (fun p => exists name, p = artifact name /\ is_Some (entries !! name)) todo ->
  (i + length todo <= length schedule)%nat ->
  exists new w',
    uploadLoop dirname platform noFault schedule i todo w results = (results ++ new, w') /\
    loop_pairing schedule i w todo new w'.
Proof.
  induction todo as [|p todo IH]; intros i w results entries Hd Hnd Hex Hlen.
  { exists [], w. simpl. rewrite app_nil_r. split; [done |]. split.
    - exists []. rewrite app_nil_r. split_and!; [done | constructor | done].
    - intros k res p t. by rewrite lookup_nil. }
  apply NoDup_cons in Hnd as [Hp Hnd].
  apply Forall_cons in Hex as [(name & -> & Hname) Hex].
  simpl in Hlen.
  destruct (lookup_lt_is_Some_2 schedule i ltac:(lia)) as [t Ht].
  simpl. rewrite (uploadStep_artifact _ _ _ _ _ _ _ entries t) by done.
  assert (forall entries1 w1 r tr1,
            disk w1 = Present entries1 ->
            (forall q, q ∈ todo -> exists n, q = artifact n /\ is_Some (entries1 !! n)) ->
            trace w1 = trace w ++ tr1 ->
            attempts tr1 `sublist_of` [(artifact name, t)] ->
            removals tr1 = uploadedPaths [r] ->
            (forall res p0 t0, r = Uploaded res p0 t0 ->
               p0 = artifact name /\ t0 = t /\ publishAt res = t) ->
            exists new w',
              uploadLoop dirname platform noFault schedule (S i) todo w1 (results ++ [r])
              = (results ++ new, w') /\
              loop_pairing schedule i w (artifact name :: todo) new w') as Hstep.
  { intros entries1 w1 r tr1 Hd1 Hex1 Htr1 Hatt Hrem Hres.
    destruct (IH (S i) w1 (results ++ [r]) entries1)
      as (new & w' & -> & [(tr & Htr & Hatt' & Hrem') Hpairs]).
    - done.
    - done.
    - apply Forall_forall. intros q Hq. by apply Hex1.
    - lia.
    - exists (r :: new), w'. split; [by rewrite <- app_assoc |]. split.
      + exists (tr1 ++ tr). split_and!.
        * by rewrite Htr, Htr1, app_assoc.
        * rewrite attempts_app, (drop_S _ _ _ Ht).
          change (zip (artifact name :: todo) (t :: drop (S i) schedule))
            with ([(artifact name, t)] ++ zip todo (drop (S i) schedule)).
          by apply sublist_app.
        * rewrite removals_app, Hrem, Hrem'.
          change (r :: new) with ([r] ++ new).
          by rewrite filter_app, fmap_app.
      + intros k res p0 t0 Hk. destruct k as [|k].
        * simpl in Hk. injection Hk as ->.
          destruct (Hres _ _ _ eq_refl) as (-> & -> & Hpub).
          rewrite Nat.add_0_r. done.
        * simpl in Hk. destruct (Hpairs _ _ _ _ Hk) as (H1 & H2 & H3).
          split_and!; [done | | done].
          by replace (i + S k)%nat with (S i + k)%nat by lia. }
  assert (forall q, q ∈ todo -> exists n, q = artifact n /\ is_Some (entries !! n)) as Hex'.
  { intros q Hq. rewrite Forall_forall in Hex. by apply Hex. }
  destruct (platform (trace w) (artifact name) t) as [e|id ttl|e] eqn:Hpl.
  - apply (Hstep entries w _ []); try done.
    + by rewrite app_nil_r.
    + apply sublist_nil_l.
  - eapply (Hstep (delete name entries) _ _
              [EvInsert (artifact name) t (Inserted id ttl); EvUnlink (artifact name)]).
    + done.
    + intros q Hq. destruct (Hex' q Hq) as (n & -> & Hn). exists n. split; [done |].
      rewrite lookup_delete_ne; [done |]. by intros ->.
    + cbn [trace]. by rewrite <- app_assoc.
    + done.
    + done.
    + by intros res p0 t0 [= <- <- <-].
  - eapply (Hstep entries _ _ [EvInsert (artifact name) t (Rejected e)]); try done.
Qed.

Lemma live_run_pairing clock w entries :
  disk w = Present entries ->
  loop_pairing (calculateSchedule clock (length (pendingOf (disk w)))) 0 w
    (pendingOf (disk w))
    (uploadAllPending dirname platform noFault clock false w).1
    (uploadAllPending dirname platform noFault clock false w).2.
Proof.
  intros Hd. rewrite live_run_loop.
  destruct (uploadLoop_pairing (calculateSchedule clock (length (pendingOf (disk w))))
              (pendingOf (disk w)) 0 w [] entries) as (new & w' & -> & Hpair).
  - done.
  - apply NoDup_getPendingVideos.
  - apply Forall_forall. intros p. rewrite Hd.
    intros (name & -> & _ & H)%elem_of_getPendingVideos. by exists name.
  - by rewrite calculateSchedule_length.
  - done.
Qed.

(** In a live run the oldest artifact gets the earliest slot: a result that
    records an upload carries the slot of the queue position of its artifact,
    which is also the publication time the platform was given.  The artifact
    stands in the queue no later than the result in the results, and at the
    very same position when [fs.unlinkSync] does not throw for a file that
    is there. *)
Theorem live_run_pairs_slots clock w i res p t :
  (uploadAllPending dirname platform unlinkFault clock false w).1 !! i
    = Some (Uploaded res p t) ->
  publishAt res = t /\
  (exists k, (k <= i)%nat /\ pendingOf (disk w) !! k = Some p /\
             calculateSchedule clock (length (pendingOf (disk w))) !! k = Some t) /\
  ((forall tr q, unlinkFault tr q = None) ->
   pendingOf (disk w) !! i = Some p /\
   calculateSchedule clock (length (pendingOf (disk w))) !! i = Some t).
Proof.
  destruct (disk w) as [|entries] eqn:Hd.
  { rewrite live_run_Missing_any by done. cbn [fst]. by rewrite lookup_nil. }
  rewrite <- Hd. intros Hi.
  pose proof (live_run_post_any dirname platform unlinkFault clock w entries Hd) as Hany.
  destruct (any_slots _ _ _ _ _ _ _ Hany i res p t Hi) as (Hres & k & Hk & Hp & Ht).
  split_and!; [done | by exists k |].
  intros Hno. rewrite (live_run_noFault dirname platform unlinkFault clock w Hno) in Hi.
  destruct (live_run_pairing clock w entries Hd) as [_ Hpairs].
  by destruct (Hpairs i res p t Hi) as (? & ? & _).
Qed.

(** In a live run in which removals go through ([noFault]) the platform is
    asked in queue order, at most once per artifact, each time with the slot
    at the artifact's queue position; and the files removed are exactly
    those of the upload results, in order. *)
Theorem live_run_attempts clock w :
  exists tr,
    trace (uploadAllPending dirname platform noFault clock false w).2 = trace w ++ tr /\
    attempts tr `sublist_of`
      zip (pendingOf (disk w)) (calculateSchedule clock (length (pendingOf (disk w)))) /\
    removals tr = uploadedPaths (uploadAllPending dirname platform noFault clock false w).1.
Proof.
  destruct (disk w) as [|entries] eqn:Hd.
  { rewrite live_run_Missing by done. exists []. rewrite app_nil_r.
    split_and!; [done | apply sublist_nil_l | done]. }
  rewrite <- Hd.
  destruct (live_run_pairing clock w entries Hd) as [(tr & Htr & Hatt & Hrem) _].
  exists tr. by rewrite drop_0 in Hatt.
Qed.

(** A live run only removes: when removals go through ([noFault]) the disk
    afterwards holds every file it held before, under the same name and with
    the same modification time, except the artifacts with an upload result;
    no file is created or altered. *)
Theorem live_run_only_removes clock w :
  match disk w with
  | Missing => disk (uploadAllPending dirname platform noFault clock false w).2 = Missing
  | Present entries =>
      exists entries',
        disk (uploadAllPending dirname platform noFault clock false w).2 = Present entries' /\
        forall name, entries' !! name =
          if decide (artifact name
                       ∈ uploadedPaths (uploadAllPending dirname platform noFault clock false w).1)
          then None else entries !! name
  end.
Proof.
  destruct (disk w) as [|entries] eqn:Hd.
  { rewrite live_run_Missing by done. done. }
  apply (post_disk _ _ _ _ _ _ _ (live_run_post dirname platform clock w entries Hd)).
Qed.

(** A live run in which no upload succeeds leaves the disk as it was,
    whatever the file system would do on a removal, so the next run finds
    the same queue in the same order. *)
Theorem failed_run_keeps_queue clock w :
  Forall (fun r => is_uploaded r = false)
    (uploadAllPending dirname platform unlinkFault clock false w).1 ->
  disk (uploadAllPending dirname platform unlinkFault clock false w).2 = disk w /\
  pendingOf (disk (uploadAllPending dirname platform unlinkFault clock false w).2)
  = pendingOf (disk w).
Proof.
  intros Hall.
  assert (disk (uploadAllPending dirname platform unlinkFault clock false w).2 = disk w) as Heq.
  { destruct (disk w) as [|entries] eqn:Hd.
    { by rewrite live_run_Missing_any. }
    pose proof (live_run_post_any dirname platform unlinkFault clock w entries Hd) as Hany.
    destruct (any_disk _ _ _ _ _ _ _ Hany) as (entries' & -> & Hlook).
    f_equal. apply map_eq. intros name. rewrite Hlook.
    rewrite decide_False; [done |]. intros [Hin Hnf]. apply Hnf.
    apply (any_covered _ _ _ _ _ _ _ Hany) in Hin.
    apply list_elem_of_fmap in Hin as (r & Hr & Hin).
    apply list_elem_of_fmap. exists r. split; [done |].
    apply list_elem_of_filter. split; [| done].
    pose proof (any_kinds _ _ _ _ _ _ _ Hany) as Hk. rewrite Forall_forall in Hk, Hall.
    destruct (Hk r Hin) as [-> _]. by rewrite (Hall r Hin). }
  by rewrite Heq.
Qed.

Lemma dry_run_facts clock w :
  (uploadAllPending dirname platform unlinkFault clock true w).2 = w /\
  length (uploadAllPending dirname platform unlinkFault clock true w).1
  = length (pendingOf (disk w)) /\
  Forall (fun r => success r = None)
    (uploadAllPending dirname platform unlinkFault clock true w).1.
Proof.
  unfold uploadAllPending. cbv zeta.
  destruct (Nat.eqb_spec (length (pendingOf (disk w))) 0) as [H0|H0]; cbn [fst snd].
  { by rewrite H0. }
  split_and!; [done | by rewrite length_imap |].
  apply Forall_lookup. intros i r. rewrite list_lookup_imap.
  destruct (pendingOf (disk w) !! i); [| done]. by intros [= <-].
Qed.

(** *** The [upload] command *)

Lemma filter_length_ext {A} (P Q : A -> Prop) `{forall x, Decision (P x)}
    `{forall x, Decision (Q x)} (l : list A) :
  Forall (fun x => P x <-> Q x) l -> length (filter P l) = length (filter Q l).
Proof.
  induction 1 as [|x l Hx Hl IH]; [done |].
  rewrite !filter_cons.
  destruct (decide (P x)), (decide (Q x)); simpl; try (by f_equal); tauto.
Qed.

Lemma filter_length_complement {A} (P : A -> bool) (l : list A) :
  (length (filter (fun x => P x = true) l)
   + length (filter (fun x => negb (P x) = true) l) = length l)%nat.
Proof.
  induction l as [|x l IH]; [done |].
  rewrite !filter_cons. destruct (P x) eqn:Hp; simpl; lia.
Qed.

(** With credentials, the live [upload] command reports as failed exactly as
    many items as are still pending afterwards, and as uploaded no more than
    the queue held; the two counts add up to the length of the queue it
    found or more, and to exactly that length when [fs.unlinkSync] does not
    throw for a file that is there. *)
Theorem main_upload_live_summary clock w :
  exists ok fail,
    (main_upload dirname platform unlinkFault true clock false w).1 = Summary ok fail /\
    fail = length (pendingOf
                     (disk (main_upload dirname platform unlinkFault true clock false w).2)) /\
    (ok <= length (pendingOf (disk w)))%nat /\
    (length (pendingOf (disk w)) <= ok + fail)%nat /\
    ((forall tr p, unlinkFault tr p = None) ->
     (ok + fail = length (pendingOf (disk w)))%nat).
Proof.
  unfold main_upload. cbn [negb].
  assert (loop_facts :
    let run := uploadAllPending dirname platform unlinkFault clock false w in
    Forall (fun r => is_failed r = negb (is_uploaded r) /\ is_Some (success r)) run.1 /\
    pendingOf (disk run.2) ≡ₚ videoPath <$> filter (fun r => is_failed r) run.1 /\
    NoDup (uploadedPaths run.1) /\
    (forall r, r ∈ run.1 -> videoPath r ∈ pendingOf (disk w)) /\
    (length (pendingOf (disk w)) <= length run.1)%nat).
  { cbv zeta. destruct (disk w) as [|entries] eqn:Hd.
    { rewrite live_run_Missing_any by done. cbn [fst snd]. rewrite Hd.
      split_and!; [constructor | done | constructor | by intros r ?%elem_of_nil | done]. }
    pose proof (live_run_post_any dirname platform unlinkFault clock w entries Hd) as Hany.
    rewrite <- Hd. split_and!.
    - apply (any_kinds _ _ _ _ _ _ _ Hany).
    - apply (loop_post_any_after dirname _ entries w _ _ Hd Hany).
    - apply (any_uploaded _ _ _ _ _ _ _ Hany).
    - apply (any_in_todo _ _ _ _ _ _ _ Hany).
    - apply (any_length _ _ _ _ _ _ _ Hany). }
  cbv zeta in loop_facts. destruct loop_facts as (Hkinds & Hperm & Hnu & Hin & Hlen).
  pose proof (live_run_noFault dirname platform unlinkFault clock w) as Hno.
  pose proof (fun entries Hd =>
                post_paths _ _ _ _ _ _ _ (live_run_post dirname platform clock w entries Hd))
    as Hone.
  pose proof (live_run_Missing dirname platform clock false w) as Hmiss.
  destruct (uploadAllPending dirname platform unlinkFault clock false w) as [results w'].
  cbn [fst snd] in *. eexists _, _. split; [done |].
  assert (length (filter (fun r => negb (success_truthy r) = true) results)
          = length (pendingOf (disk w'))) as Hfail.
  { rewrite Hperm, length_fmap. apply filter_length_ext.
    eapply Forall_impl; [exact Hkinds |]. intros r [Hk Hs]. simpl.
    destruct r; simpl in *; done. }
  assert (length (filter (fun r => success_truthy r = true) results)
          = length (uploadedPaths results)) as Hok.
  { rewrite length_fmap. apply filter_length_ext.
    eapply Forall_impl; [exact Hkinds |]. intros r [Hk Hs]. simpl.
    destruct r; simpl in *; done. }
  pose proof (filter_length_complement success_truthy results) as Hsum.
  split_and!.
  - done.
  - rewrite Hok. apply submseteq_length, NoDup_submseteq; [done |].
    intros q (r & -> & [_ Hr]%list_elem_of_filter)%list_elem_of_fmap. by apply Hin.
  - lia.
  - intros Hnone. rewrite Hsum.
    specialize (Hno Hnone).
    destruct (disk w) as [|entries] eqn:Hd.
    + rewrite Hmiss in Hno by done. by injection Hno as -> _.
    + rewrite <- (Hone entries eq_refl), <- Hno. cbn [fst]. by rewrite length_fmap.
Qed.

(** A dry run of the [upload] command changes nothing and reports no item
    as uploaded and every pending item as failed, because a preview has no
    [success] field; without credentials the command exits with code 1,
    dry run or not, before it looks at the queue. *)
Theorem main_upload_dry_run_summary clock w dryRun :
  main_upload dirname platform unlinkFault true clock true w
  = (Summary 0 (length (pendingOf (disk w))), w) /\
  main_upload dirname platform unlinkFault false clock dryRun w = (ExitWith 1, w).
Proof.
  split; [| done]. unfold main_upload. cbn [negb].
  destruct (dry_run_facts clock w) as (Hw & Hlen & Hnone).
  destruct (uploadAllPending dirname platform unlinkFault clock true w) as [results w'].
  cbn [fst snd] in *. subst w'. f_equal. rewrite <- Hlen.
  assert (forall l : list publish_result,
            Forall (fun r => success r = None) l ->
            filter (fun r => success_truthy r = true) l = [] /\
            filter (fun r => negb (success_truthy r) = true) l = l) as Hf.
  { induction 1 as [|r l Hr Hl [IH1 IH2]]; [done |].
    assert (success_truthy r = false) as Ht by (unfold success_truthy; by rewrite Hr).
    rewrite !filter_cons, Ht. simpl. by rewrite IH1, IH2. }
  destruct (Hf results Hnone) as [-> ->]. done.
Qed.

End OrchestratorFacts.

Lemma live_run_pairs_slots_witness :
  publishAt {| videoId := "id"; title := "Daily Dose of Internet Memes #Shorts";
               publishAt := 1705363200000 |} = 1705363200000 /\
  (exists k, (k <= 2)%nat /\
     getPendingVideos demoDir (disk demoWorld) !! k = Some "/app/output/c.mp4" /\
     calculateSchedule (frozen at_1500) (length (getPendingVideos demoDir (disk demoWorld))) !! k
       = Some 1705363200000) /\
  getPendingVideos demoDir (disk demoWorld) !! 2%nat = Some "/app/output/c.mp4" /\
  calculateSchedule (frozen at_1500) (length (getPendingVideos demoDir (disk demoWorld))) !! 2%nat
    = Some 1705363200000.
Proof.
  assert ((uploadAllPending demoDir demoPlatform noFault (frozen at_1500) false demoWorld).1
            !! 2%nat
          = Some (Uploaded {| videoId := "id"; title := "Daily Dose of Internet Memes #Shorts";
                              publishAt := 1705363200000 |}
                    "/app/output/c.mp4" 1705363200000)) as Hrun
    by (vm_compute; reflexivity).
  destruct (live_run_pairs_slots demoDir demoPlatform noFault (frozen at_1500) demoWorld 2
              _ _ _ Hrun) as (H1 & H2 & H3).
  split; [exact H1 |]. split; [exact H2 |]. apply H3. intros tr q. reflexivity.
Defined.

(** With the removal of A failing, the upload of C is the fourth result,
    and C the third in the queue. *)
Example removal_fault_shifts_results :
  (uploadAllPending demoDir demoPlatform demoFault (frozen at_1500) false demoWorld).1 !! 3%nat
  = Some (Uploaded {| videoId := "id"; title := "Daily Dose of Internet Memes #Shorts";
                      publishAt := 1705363200000 |} "/app/output/c.mp4" 1705363200000) /\
  getPendingVideos demoDir (disk demoWorld) !! 2%nat = Some "/app/output/c.mp4" /\
  main_upload demoDir demoPlatform demoFault true (frozen at_1500) false demoWorld
  = (Summary 2 2,
     (uploadAllPending demoDir demoPlatform demoFault (frozen at_1500) false demoWorld).2).
Proof. vm_compute. auto. Qed.

Lemma main_upload_live_summary_witness :
  exists ok fail,
    (main_upload demoDir demoPlatform noFault true (frozen at_1500) false demoWorld).1
      = Summary ok fail /\
    fail = length (getPendingVideos demoDir
                     (disk (main_upload demoDir demoPlatform noFault true (frozen at_1500)
                              false demoWorld).2)) /\
    (ok <= length (getPendingVideos demoDir (disk demoWorld)))%nat /\
    (length (getPendingVideos demoDir (disk demoWorld)) <= ok + fail)%nat /\
    (ok + fail = length (getPendingVideos demoDir (disk demoWorld)))%nat.
Proof.
  destruct (main_upload_live_summary demoDir demoPlatform noFault (frozen at_1500) demoWorld)
    as (ok & fail & H1 & H2 & H3 & H4 & H5).
  exists ok, fail. split; [exact H1 |]. split; [exact H2 |]. split; [exact H3 |].
  split; [exact H4 |]. apply H5. intros tr p. reflexivity.
Defined.

Lemma failed_run_keeps_queue_witness :
  disk (uploadAllPending demoDir (fun _ _ _ => Rejected (Error "quotaExceeded")) noFault
          (frozen at_1500) false demoWorld).2 = disk demoWorld /\
  getPendingVideos demoDir
    (disk (uploadAllPending demoDir (fun _ _ _ => Rejected (Error "quotaExceeded")) noFault
             (frozen at_1500) false demoWorld).2)
  = getPendingVideos demoDir (disk demoWorld).
Proof.
  apply (failed_run_keeps_queue demoDir (fun _ _ _ => Rejected (Error "quotaExceeded"))
           noFault (frozen at_1500) demoWorld).
  vm_compute. repeat constructor.
Defined.

(** ** parseArgs *)

Section ParseArgsFacts.

Variable parseInt : string -> option Z.

(** The callback of [args.find] in parseArgs. *)
Abbreviation after_count args :=
  (fun (_ : string) (i : nat) =>
     match i with
     | O => false
     | S j => bool_decide (args !! j = Some "--count")
     end).

(** Scanning a stretch without [--count] that does not follow one finds
    nothing and moves on. *)
Lemma js_find_skip (args : list string) : forall pre pre0 rest,
  args = pre0 ++ pre ++ rest ->
  last pre0 <> Some "--count" ->
  "--count" ∉ pre ->
  js_find_from (after_count args) (length pre0) (pre ++ rest)
  = js_find_from (after_count args) (length pre0 + length pre) rest /\
  last (pre0 ++ pre) <> Some "--count".
Proof.
  induction pre as [|x pre IH]; intros pre0 rest Hargs Hlast Hnot.
  { rewrite app_nil_r, Nat.add_0_r. done. }
  apply not_elem_of_cons in Hnot as [Hx Hnot].
  assert (after_count args x (length pre0) = false) as Hp.
  { destruct pre0 as [|y pre0 _] using rev_ind; [done |].
    rewrite length_app. simpl. rewrite Nat.add_1_r.
    apply bool_decide_eq_false_2. rewrite Hargs, <- app_assoc.
    rewrite lookup_app_r by lia. rewrite Nat.sub_diag. simpl.
    rewrite last_snoc in Hlast. congruence. }
  simpl. rewrite Hp.
  destruct (IH (pre0 ++ [x]) rest) as [Heq Hl].
  - by rewrite <- app_assoc.
  - rewrite last_snoc. congruence.
  - done.
  - rewrite length_app in Heq. simpl in Heq. rewrite Nat.add_1_r in Heq.
    rewrite Heq. split; [f_equal; lia |].
    by rewrite <- app_assoc in Hl.
Qed.

(** Where no argument follows a [--count] (the flag is absent, or it is the
    last argument) the count is 6; the command is the first argument, or
    [help] when there is none or it is empty; and [dryRun] is set exactly when
    [--dry-run] occurs somewhere among the arguments. *)
Theorem parseArgs_defaults argv :
  let args := drop 2 argv in
  let parsed := parseArgs parseInt argv in
  ("--count" ∉ args -> args_count parsed = Some 6) /\
  (forall pre, args = pre ++ ["--count"] -> "--count" ∉ pre ->
     args_count parsed = Some 6) /\
  (args = [] -> args_command parsed = "help") /\
  (forall c rest, args = c :: rest -> c <> EmptyString -> args_command parsed = c) /\
  (args_dryRun parsed = true <-> "--dry-run" ∈ args).
Proof.
  cbv zeta. unfold parseArgs. cbn [args_count args_command args_dryRun].
  set (args := drop 2 argv). split_and!.
  - intros Hnot. unfold js_find.
    destruct (js_find_skip args args [] []) as [Heq _]; [by rewrite app_nil_r | done | done |].
    rewrite app_nil_r in Heq. simpl in Heq. by rewrite Heq.
  - intros pre Hargs Hnot. unfold js_find.
    destruct (js_find_skip args pre [] ["--count"]) as [Heq Hlast]; [done | done | done |].
    simpl in Heq. rewrite <- Hargs in Heq. rewrite Heq.
    assert (after_count args "--count" (length pre) = false) as ->; [| done].
    destruct pre as [|y pre _] using rev_ind; [done |].
    rewrite length_app. simpl. rewrite Nat.add_1_r.
    apply bool_decide_eq_false_2. rewrite Hargs, <- app_assoc.
    rewrite lookup_app_r by lia. rewrite Nat.sub_diag. simpl.
    simpl in Hlast. rewrite last_snoc in Hlast. congruence.
  - by intros ->.
  - intros c rest -> Hc. simpl. by apply String.eqb_neq in Hc as ->.
  - apply bool_decide_eq_true.
Qed.

(** The count is read from the argument right after the first [--count],
    whatever it is: it is handed to [parseInt], or gives 6 when it is the
    empty string. *)
Theorem parseArgs_first_count argv pre v post :
  drop 2 argv = pre ++ "--count" :: v :: post ->
  "--count" ∉ pre ->
  args_count (parseArgs parseInt argv)
  = if String.eqb v EmptyString then Some 6 else parseInt v.
Proof.
  intros Hargs Hnot. unfold parseArgs. cbn [args_count].
  set (args := drop 2 argv) in *. unfold js_find.
  destruct (js_find_skip args pre [] ("--count" :: v :: post)) as [Heq Hlast];
    [done | done | done |].
  simpl in Heq. rewrite <- Hargs in Heq. rewrite Heq. simpl.
  assert (after_count args "--count" (length pre) = false) as ->.
  { destruct pre as [|y pre _] using rev_ind; [done |].
    rewrite length_app. simpl. rewrite Nat.add_1_r.
    apply bool_decide_eq_false_2. rewrite Hargs, <- app_assoc.
    rewrite lookup_app_r by lia. rewrite Nat.sub_diag. simpl.
    simpl in Hlast. rewrite last_snoc in Hlast. congruence. }
  rewrite bool_decide_eq_true_2; [done |].
  rewrite Hargs. rewrite lookup_app_r by lia. by rewrite Nat.sub_diag.
Qed.

End ParseArgsFacts.

Lemma parseArgs_defaults_witness :
  args_count (parseArgs (fun _ => None) ["node"; "scheduler.js"; "upload"; "--dry-run"])
  = Some 6.
Proof.
  pose proof (parseArgs_defaults (fun _ => None)
                ["node"; "scheduler.js"; "upload"; "--dry-run"]) as H.
  cbv zeta in H. destruct H as (H & _). apply H.
  vm_compute. intros H'. repeat (apply elem_of_cons in H' as [H'|H']; [discriminate |]).
  by apply elem_of_nil in H'.
Defined.

Lemma parseArgs_first_count_witness :
  args_count (parseArgs (fun _ => None)
                ["node"; "scheduler.js"; "batch"; "--count"; "--dry-run"])
  = if String.eqb "--dry-run" EmptyString then Some 6 else (fun _ => None) "--dry-run".
Proof.
  apply (parseArgs_first_count (fun _ => None)
           ["node"; "scheduler.js"; "batch"; "--count"; "--dry-run"] ["batch"] "--dry-run" []).
  - reflexivity.
  - intros H'. apply elem_of_cons in H' as [H'|H']; [discriminate |].
    by apply elem_of_nil in H'.
Defined.

(** ** getRandomFileFromDir *)

Section RandomFileFacts.

Variable toLowerCase : string -> string.
Variable pick : nat -> nat.

Abbreviation candidate := (candidate_file toLowerCase).

Lemma candidates_filter extensions (files : list string) file :
  file ∈ filter (fun f => negb (startsWith f ".") = true)
           (if (0 <? length extensions)%nat
            then filter (fun f =>
                   existsb (fun ext => endsWith (toLowerCase f) ext) extensions = true) files
            else files)
  <-> file ∈ files /\ candidate extensions file.
Proof.
  rewrite list_elem_of_filter, negb_true_iff. unfold candidate_file.
  destruct extensions as [|e exts]; simpl.
  { split; [intros [? ?] | intros [? [? _]]]; split_and!; auto. }
  rewrite list_elem_of_filter. split.
  - intros [Hh [Hex Hin]]. split_and!; [done | done |]. right.
    apply orb_true_iff in Hex as [He|Hex].
    + exists e. split; [apply list_elem_of_here | done].
    + apply existsb_exists in Hex as (ext & Hin' & He).
      exists ext. split; [| done].
      apply list_elem_of_further. by apply list_elem_of_In.
  - intros [Hin [Hh [Hnil|(ext & Hext & He)]]]; [done |].
    split_and!; [done | | done].
    apply elem_of_cons in Hext as [->|Hext].
    + by rewrite He.
    + apply orb_true_iff. right. apply existsb_exists. exists ext.
      split; [by apply list_elem_of_In | done].
Qed.

(** A path that getRandomFileFromDir returns is [path.join] of the directory
    and one of its entries, which is not hidden and, when extensions are
    given, ends in one of them once lower-cased. *)
Theorem random_file_is_candidate listing dirPath extensions path :
  getRandomFileFromDir toLowerCase pick listing dirPath extensions = Return (Some path) ->
  exists files file,
    listing = Some files /\ file ∈ files /\ path = path_join dirPath file /\
    candidate extensions file.
Proof.
  unfold getRandomFileFromDir. destruct listing as [files|]; [| done].
  set (cands := filter _ _).
  destruct (length cands =? 0)%nat; [done |].
  destruct (cands !! pick (length cands)) as [file|] eqn:Hf; [| done].
  intros [= <-]. exists files, file.
  apply list_elem_of_lookup_2 in Hf. apply candidates_filter in Hf as [Hin Hc].
  by split_and!.
Qed.

(** With a random index in range, getRandomFileFromDir never throws, and it
    returns [null] exactly when the directory does not exist or none of its
    entries qualifies. *)
Theorem random_file_null listing dirPath extensions :
  (forall n, (0 < n)%nat -> (pick n < n)%nat) ->
  (exists r, getRandomFileFromDir toLowerCase pick listing dirPath extensions = Return r) /\
  (getRandomFileFromDir toLowerCase pick listing dirPath extensions = Return None <->
   forall files file, listing = Some files -> file ∈ files -> ~ candidate extensions file).
Proof.
  intros Hpick. unfold getRandomFileFromDir.
  destruct listing as [files|].
  2:{ split; [by eexists |]. split; [by intros _ files file [=] | done]. }
  set (cands := filter _ _).
  assert (forall file, file ∈ cands <-> file ∈ files /\ candidate extensions file) as Hc.
  { intros file. apply candidates_filter. }
  destruct (Nat.eqb_spec (length cands) 0) as [H0|H0].
  - split; [by eexists |]. split; [| done].
    intros _ fs file [= <-] Hin Hcand.
    apply nil_length_inv in H0.
    assert (file ∈ cands) as Hin' by (by apply Hc). rewrite H0 in Hin'.
    by apply elem_of_nil in Hin'.
  - destruct (lookup_lt_is_Some_2 cands (pick (length cands))) as [file Hf].
    { apply Hpick. lia. }
    rewrite Hf. split; [by eexists |]. split; [done |].
    intros Hnone. exfalso. apply list_elem_of_lookup_2 in Hf.
    apply Hc in Hf as [Hin Hcand]. by apply (Hnone files file).
Qed.

End RandomFileFacts.

Lemma random_file_is_candidate_witness :
  exists files file,
    Some ["clip.mp4"; ".hidden.mp4"; "notes.txt"] = Some files /\ file ∈ files /\
    "/app/assets/backgrounds/clip.mp4" = path_join "/app/assets/backgrounds" file /\
    candidate_file (fun s => s) [".mp4"; ".mov"] file.
Proof.
  apply (random_file_is_candidate (fun s => s) (fun _ => 0%nat)
           (Some ["clip.mp4"; ".hidden.mp4"; "notes.txt"]) "/app/assets/backgrounds"
           [".mp4"; ".mov"] "/app/assets/backgrounds/clip.mp4").
  vm_compute. reflexivity.
Defined.

Lemma random_file_null_witness :
  exists r,
    getRandomFileFromDir (fun s => s) (fun _ => 0%nat) (Some [".hidden.mp4"; "notes.txt"])
      "/app/assets/backgrounds" [".mp4"; ".mov"] = Return r.
Proof.
  apply (random_file_null (fun s => s) (fun _ => 0%nat) (Some [".hidden.mp4"; "notes.txt"])
           "/app/assets/backgrounds" [".mp4"; ".mov"]).
  intros n Hn. lia.
Defined.

(** ** fetchMemeFromSource and fetchMemes *)

Example show_nat_examples : show_nat 0 = "0" /\ show_nat 1 = "1" /\ show_nat 17 = "17".
Proof. vm_compute. auto. Qed.

Example sourceUrl_examples :
  sourceUrl "r/memes" = "https://www.reddit.com/r/memes/top.json?limit=25&t=day" /\
  sourceUrl "u/Idea99"
  = "https://www.reddit.com/user/Idea99/submitted.json?limit=25&sort=top&t=day".
Proof. vm_compute. auto. Qed.

Section ProducerFacts.

Variable http_get : list string -> string -> completion (list post).
Variable picks : nat -> nat -> nat.

Hypothesis picks_in_range : forall k n, (0 < n)%nat -> (picks k n < n)%nat.

Abbreviation fetchOne := (fetchMemeFromSource http_get picks).

(** fetchMemeFromSource sends exactly one request, to the address of the
    source, and draws at most one random number. *)
Lemma fetchMemeFromSource_requests st source :
  requests (fetchOne st source).2 = requests st ++ [sourceUrl source] /\
  (draws st <= draws (fetchOne st source).2 <= S (draws st))%nat.
Proof.
  unfold fetchMemeFromSource.
  destruct (http_get (requests st) (sourceUrl source)) as [posts|e]; [| simpl; split; [done | lia]].
  destruct (length _ =? 0)%nat; [simpl; split; [done | lia] |].
  destruct (_ !! _); simpl; split; (done || lia).
Qed.

(** A meme that fetchMemeFromSource returns is one of the first five image
    posts of the listing the network gave for the source, credited to that
    source; its address passed the image filter. *)
Theorem fetched_meme_is_top_image st source m st' :
  fetchOne st source = (Some m, st') ->
  exists posts p k,
    http_get (requests st) (sourceUrl source) = Return posts /\
    (k < 5)%nat /\
    filter (fun p => isImagePost p = true) posts !! k = Some p /\
    isImagePost p = true /\
    m = {| meme_title := post_title p; meme_url := post_url p;
           meme_author := post_author p; meme_source := source |}.
Proof.
  unfold fetchMemeFromSource.
  destruct (http_get (requests st) (sourceUrl source)) as [posts|e]; [| done].
  set (imagePosts := filter _ posts).
  destruct (Nat.eqb_spec (length imagePosts) 0) as [H0|H0]; [done |].
  destruct (imagePosts !! _) as [p|] eqn:Hp; [| done].
  intros [= <- <-]. exists posts, p, (picks (draws st) (Nat.min 5 (length imagePosts))).
  split_and!; [done | | done | | done].
  - pose proof (picks_in_range (draws st) (Nat.min 5 (length imagePosts))). lia.
  - apply list_elem_of_lookup_2 in Hp. by apply list_elem_of_filter in Hp as [? _].
Qed.

(** fetchMemeFromSource returns [null] exactly when the request fails or the
    listing holds no image post. *)
Theorem fetched_meme_null st source :
  (fetchOne st source).1 = None <->
  (exists e, http_get (requests st) (sourceUrl source) = Throw e) \/
  (exists posts, http_get (requests st) (sourceUrl source) = Return posts /\
                 Forall (fun p => isImagePost p = false) posts).
Proof.
  unfold fetchMemeFromSource.
  destruct (http_get (requests st) (sourceUrl source)) as [posts|e].
  2:{ simpl. split; [intros _; left; by eexists | done]. }
  set (imagePosts := filter _ posts).
  assert (imagePosts = [] <-> Forall (fun p => isImagePost p = false) posts) as Hnil.
  { subst imagePosts. rewrite Forall_forall. split.
    - intros Hn p Hp. destruct (isImagePost p) eqn:Hi; [| done].
      assert (p ∈ filter (fun p => isImagePost p = true) posts) as Hin
        by (by apply list_elem_of_filter).
      rewrite Hn in Hin. by apply elem_of_nil in Hin.
    - intros Hall. apply elem_of_nil_inv. intros p [Hi Hp]%list_elem_of_filter.
      rewrite (Hall p Hp) in Hi. done. }
  destruct (Nat.eqb_spec (length imagePosts) 0) as [H0|H0].
  - apply nil_length_inv in H0. simpl. split; [| done].
    intros _. right. exists posts. split; [done |]. by apply Hnil.
  - destruct (lookup_lt_is_Some_2 imagePosts
                (picks (draws st) (Nat.min 5 (length imagePosts)))) as [p Hp].
    { pose proof (picks_in_range (draws st) (Nat.min 5 (length imagePosts))). lia. }
    cbn [draws requests]. rewrite Hp. simpl. split; [done |].
    intros [[e [=]]|(posts' & [= <-] & Hall)].
    apply Hnil in Hall. rewrite Hall in H0. done.
Qed.

Lemma fetchMemeFromSource_source st source m :
  (fetchOne st source).1 = Some m -> meme_source m = source.
Proof.
  unfold fetchMemeFromSource.
  destruct (http_get (requests st) (sourceUrl source)) as [posts|e]; [| done].
  destruct (length _ =? 0)%nat; [done |].
  destruct (_ !! _); [| done]. by intros [= <-].
Qed.

Lemma NoDup_memeSources : NoDup memeSources.
Proof. apply (bool_decide_unpack _). vm_compute. exact I. Qed.

(** The loop of fetchMemes, started with [order] already tried: it leaves
    the loop by its own test, having asked further sources [order'], each
    once and none of them tried before. *)
Lemma fetchMemesLoop_spec : forall fuel count memes order (tried : gset string) st,
  (forall s, s ∈ tried <-> s ∈ order) ->
  NoDup order ->
  (forall s, s ∈ order -> s ∈ memeSources) ->
  (length memeSources - length order < fuel)%nat ->
  (length memes <= count)%nat ->
  exists memes' st' order',
    fetchMemesLoop http_get picks fuel count memes tried st
    = Some (Return (memes ++ memes'), st') /\
    requests st' = requests st ++ (sourceUrl <$> order') /\
    NoDup (order ++ order') /\
    (forall s, s ∈ order' -> s ∈ memeSources) /\
    (meme_source <$> memes') `sublist_of` order' /\
    (length (memes ++ memes') = count \/
     ((length (memes ++ memes') < count)%nat /\
      length (order ++ order') = length memeSources)).
Proof.
  induction fuel as [|fuel IH]; intros count memes order tried st Htried Hnd Hsub Hfuel Hlen.
  { lia. }
  assert (tried = list_to_set order) as Heq.
  { apply set_eq. intros s. by rewrite Htried, elem_of_list_to_set. }
  assert (size tried = length order) as Hsize.
  { rewrite Heq. by apply size_list_to_set. }
  assert (length order <= length memeSources)%nat as Hle.
  { apply submseteq_length. by apply NoDup_submseteq. }
  cbn [fetchMemesLoop]. rewrite Hsize.
  destruct (Nat.ltb_spec (length memes) count) as [Hm|Hm];
    destruct (Nat.ltb_spec (length order) (length memeSources)) as [Ho|Ho]; cbn [andb].
  2,3,4: exists [], st, []; rewrite ?fmap_nil, ?app_nil_r;
    split_and!; [done | done | done | by intros s ?%elem_of_nil | constructor | lia].
  set (available := filter (fun s => s ∉ tried) memeSources).
  assert (available <> []) as Hav.
  { intros Hnil.
    assert (length memeSources <= length order)%nat; [| lia].
    apply submseteq_length. apply NoDup_submseteq; [apply NoDup_memeSources |].
    intros s Hs. apply Htried. destruct (decide (s ∈ tried)) as [|Hn]; [done |].
    assert (s ∈ available) as Hin by (by apply list_elem_of_filter).
    rewrite Hnil in Hin. by apply elem_of_nil in Hin. }
  destruct (lookup_lt_is_Some_2 available (picks (draws st) (length available)))
    as [source Hsrc].
  { apply picks_in_range. destruct available; [done | simpl; lia]. }
  rewrite Hsrc.
  apply list_elem_of_lookup_2, list_elem_of_filter in Hsrc as [Hnew Hin].
  set (st1 := {| requests := requests st; draws := S (draws st) |}).
  pose proof (fetchMemeFromSource_requests st1 source) as [Hreq _].
  pose proof (fetchMemeFromSource_source st1 source) as Hsource.
  destruct (fetchOne st1 source) as [found st2]. cbn [fst snd] in *.
  assert (forall s, s ∈ {[source]} ∪ tried <-> s ∈ order ++ [source]) as Htried'.
  { intros s. rewrite elem_of_union, elem_of_singleton, elem_of_app, list_elem_of_singleton.
    rewrite Htried. tauto. }
  assert (NoDup (order ++ [source])) as Hnd'.
  { apply NoDup_app. split_and!; [done | | apply NoDup_singleton].
    intros s Hs ->%list_elem_of_singleton. apply Hnew. by apply Htried. }
  assert (forall s, s ∈ order ++ [source] -> s ∈ memeSources) as Hsub'.
  { intros s [Hs| ->%list_elem_of_singleton]%elem_of_app; [by apply Hsub | done]. }
  assert (length memeSources - length (order ++ [source]) < fuel)%nat as Hfuel'.
  { rewrite length_app. change (length [source]) with 1%nat. lia. }
  destruct found as [m|].
  - destruct (IH count (memes ++ [m]) (order ++ [source]) ({[source]} ∪ tried) st2)
      as (memes' & st' & order' & -> & Hr & Hnd'' & Hs'' & Hsl & Hfin);
      [done | done | done | done | rewrite length_app; simpl; lia |].
    exists (m :: memes'), st', (source :: order').
    rewrite <- !app_assoc in *. simpl in *.
    split_and!; [done | | done | | | done].
    + by rewrite Hr, Hreq, <- app_assoc.
    + intros s [->|Hs]%elem_of_cons; [done | by apply Hs''].
    + rewrite (Hsource m eq_refl). by apply sublist_skip.
  - destruct (IH count memes (order ++ [source]) ({[source]} ∪ tried) st2)
      as (memes' & st' & order' & -> & Hr & Hnd'' & Hs'' & Hsl & Hfin);
      [done | done | done | done | done |].
    exists memes', st', (source :: order').
    rewrite <- !app_assoc in *. simpl in *.
    split_and!; [done | | done | | | done].
    + by rewrite Hr, Hreq, <- app_assoc.
    + intros s [->|Hs]%elem_of_cons; [done | by apply Hs''].
    + by apply sublist_cons.
Qed.

(** fetchMemes always comes to an end, after asking each source at most
    once, in some order, and no address that is not of a source; it returns
    exactly [count] memes, from different sources among those asked, in the
    order they were asked; or, having asked every source, it throws, naming
    the number of memes it found, which is less than [count]. *)
Theorem fetchMemes_spec count st :
  exists result st' order,
    fetchMemes http_get picks count st = Some (result, st') /\
    requests st' = requests st ++ (sourceUrl <$> order) /\
    NoDup order /\
    (forall s, s ∈ order -> s ∈ memeSources) /\
    (length order <= length memeSources)%nat /\
    match result with
    | Return memes =>
        length memes = count /\
        (meme_source <$> memes) `sublist_of` order /\
        NoDup (meme_source <$> memes)
    | Throw e =>
        order ≡ₚ memeSources /\
        exists found, (found < count)%nat /\
          e = Error ("Could only find " +:+ show_nat found +:+ " memes")
    end.
Proof.
  unfold fetchMemes.
  destruct (fetchMemesLoop_spec (S (length memeSources)) count [] [] ∅ st)
    as (memes & st' & order & -> & Hr & Hnd & Hsub & Hsl & Hfin).
  - intros s. by rewrite elem_of_empty, elem_of_nil.
  - constructor.
  - by intros s ?%elem_of_nil.
  - simpl. lia.
  - simpl. lia.
  - cbn [app] in *.
    assert (length order <= length memeSources)%nat as Hle.
    { apply submseteq_length. by apply NoDup_submseteq. }
    destruct (Nat.ltb_spec (length memes) count) as [Hlt|Hge].
    + exists (Throw (Error ("Could only find " +:+ show_nat (length memes) +:+ " memes"))),
        st', order.
      split_and!; try done.
      * apply submseteq_length_Permutation; [by apply NoDup_submseteq | lia].
      * by exists (length memes).
    + exists (Return memes), st', order.
      split_and!; try done; [lia |].
      by eapply sublist_NoDup.
Qed.

End ProducerFacts.

Lemma fetched_meme_is_top_image_witness :
  exists posts p k,
    (fun _ _ => Return [{| post_title := "text"; post_url := "https://example.org/a";
                           post_author := "x" |};
                        {| post_title := "cat"; post_url := "https://i.redd.it/cat.png";
                           post_author := "y" |}])
      (requests {| requests := []; draws := 0 |}) (sourceUrl "r/memes") = Return posts /\
    (k < 5)%nat /\
    filter (fun p => isImagePost p = true) posts !! k = Some p /\
    isImagePost p = true /\
    {| meme_title := "cat"; meme_url := "https://i.redd.it/cat.png"; meme_author := "y";
       meme_source := "r/memes" |}
    = {| meme_title := post_title p; meme_url := post_url p;
         meme_author := post_author p; meme_source := "r/memes" |}.
Proof.
  apply (fetched_meme_is_top_image _ (fun _ _ => 0%nat) ltac:(intros k n Hn; exact Hn)
           {| requests := []; draws := 0 |} "r/memes" _
           {| requests := ["https://www.reddit.com/r/memes/top.json?limit=25&t=day"];
              draws := 1 |}).
  vm_compute. reflexivity.
Defined.

Lemma fetched_meme_null_witness :
  (fetchMemeFromSource (fun _ _ => Throw (Error "ETIMEDOUT")) (fun _ _ => 0%nat)
     {| requests := []; draws := 0 |} "r/memes").1 = None <->
  (exists e, (fun _ _ => Throw (Error "ETIMEDOUT") : completion (list post))
               (requests {| requests := []; draws := 0 |}) (sourceUrl "r/memes") = Throw e) \/
  (exists posts, (fun _ _ => Throw (Error "ETIMEDOUT") : completion (list post))
                   (requests {| requests := []; draws := 0 |}) (sourceUrl "r/memes")
                 = Return posts /\
                 Forall (fun p => isImagePost p = false) posts).
Proof.
  apply (fetched_meme_null (fun _ _ => Throw (Error "ETIMEDOUT")) (fun _ _ => 0%nat)).
  intros k n Hn. exact Hn.
Defined.

Lemma fetchMemes_spec_witness :
  exists result st' order,
    fetchMemes (fun _ _ => Throw (Error "ETIMEDOUT")) (fun _ _ => 0%nat) 2
      {| requests := []; draws := 0 |} = Some (result, st') /\
    requests st' = requests {| requests := []; draws := 0 |} ++ (sourceUrl <$> order) /\
    NoDup order /\
    (forall s, s ∈ order -> s ∈ memeSources) /\
    (length order <= length memeSources)%nat /\
    match result with
    | Return memes =>
        length memes = 2%nat /\
        (meme_source <$> memes) `sublist_of` order /\
        NoDup (meme_source <$> memes)
    | Throw e =>
        order ≡ₚ memeSources /\
        exists found, (found < 2)%nat /\
          e = Error ("Could only find " +:+ show_nat found +:+ " memes")
    end.
Proof.
  apply (fetchMemes_spec (fun _ _ => Throw (Error "ETIMEDOUT")) (fun _ _ => 0%nat)).
  intros k n Hn. exact Hn.
Defined.

Example fetchMemes_all_sources_fail :
  (fetchMemes (fun _ _ => Throw (Error "ETIMEDOUT")) (fun _ _ => 0%nat) 2
     {| requests := []; draws := 0 |}) =
  Some (Throw (Error "Could only find 0 memes"),
        {| requests := sourceUrl <$> memeSources; draws := 17 |}).
Proof. vm_compute. reflexivity. Qed.

(** ** downloadImage *)

Lemma startsWith_empty (s : string) : startsWith s EmptyString = true.
Proof. by destruct s. Qed.

Lemma includes_dot_app (a b : string) : includes (a +:+ "." +:+ b) "." = true.
Proof.
  induction a as [|c a IH].
  - change (EmptyString +:+ "." +:+ b) with (String "." b).
    cbn [includes startsWith]. by rewrite startsWith_empty.
  - rewrite string_app_cons. cbn [includes]. rewrite IH. apply orb_true_r.
Qed.

(** The pattern takes the last dot, when something comes after it. *)
Lemma replace_extension_app stem ext r :
  ext <> EmptyString -> includes ext "." = false ->
  replace_extension (stem +:+ "." +:+ ext) r = stem +:+ r.
Proof.
  intros Hne Hnd. induction stem as [|c stem IH].
  - change (EmptyString +:+ "." +:+ ext) with (String "." ext).
    cbn [replace_extension]. rewrite Hnd.
    apply String.eqb_neq in Hne as ->. reflexivity.
  - rewrite !(string_app_cons c stem). cbn [replace_extension].
    rewrite includes_dot_app, andb_false_r. by rewrite IH.
Qed.

Lemma substring_app_suffix (a b : string) :
  substring (String.length a) (String.length b) (a +:+ b) = b.
Proof.
  induction a as [|c a IH].
  - change (EmptyString +:+ b) with b. simpl.
    induction b as [|c b IHb]; [done |]. simpl. by rewrite IHb.
  - rewrite string_app_cons. simpl. exact IH.
Qed.

Lemma endsWith_app (a b : string) : endsWith (a +:+ b) b = true.
Proof.
  unfold endsWith. rewrite string_app_length.
  replace (String.length a + String.length b - String.length b)%nat
    with (String.length a) by lia.
  rewrite substring_app_suffix, String.eqb_refl.
  apply andb_true_iff. split; [| done]. apply Nat.leb_le. lia.
Qed.

Section DownloadFacts.

Variable download : string -> completion (list N).
Variable previewText : list N -> string.

Abbreviation downloadTo := (downloadImage download previewText).

(** downloadImage returns a path exactly when the download succeeds and the
    buffer starts like a JPEG, PNG or GIF or has the WEBP mark; it then writes
    the downloaded bytes to the path it returns, and to no other; whenever it
    throws, it writes nothing. *)
Theorem downloadImage_validates files url outputPath :
  ((exists p, (downloadTo files url outputPath).1 = Return p) <->
   exists buffer, download url = Return buffer /\ has_signature buffer = true) /\
  (forall p, (downloadTo files url outputPath).1 = Return p ->
     exists buffer, download url = Return buffer /\
       (downloadTo files url outputPath).2 = <[p := buffer]> files) /\
  (forall e, (downloadTo files url outputPath).1 = Throw e ->
     (downloadTo files url outputPath).2 = files).
Proof.
  unfold downloadImage.
  destruct (download url) as [buffer|e0].
  2:{ simpl. split_and!.
      - split; [by intros [p [=]] | by intros (b & [=] & _)].
      - by intros p [=].
      - done. }
  assert (negb (isJPEG buffer) && negb (isPNG buffer) && negb (isGIF buffer)
            && negb (isWEBP buffer) = negb (has_signature buffer)) as ->.
  { unfold has_signature.
    by destruct (isJPEG buffer), (isPNG buffer), (isGIF buffer), (isWEBP buffer). }
  destruct (has_signature buffer) eqn:Hs; cbn [negb].
  - cbn [fst snd]. split_and!.
    + split; [intros _; by exists buffer | intros _; by eexists].
    + intros p [= <-]. by exists buffer.
    + by intros e [=].
  - destruct (includes (previewText (take 100 buffer)) "<html"
              || includes (previewText (take 100 buffer)) "<!doctype"); cbn [fst snd];
      (split_and!;
       [ split; [by intros [p [=]] | intros (b & [= <-] & Hb); congruence]
       | by intros p [=]
       | done ]).
Qed.

(** When the requested path has an extension, downloadImage writes a JPEG,
    PNG or GIF under that path with the extension replaced by [.jpg], [.png]
    or [.gif], whatever the extension was, and returns that path; the
    requested path itself is written only if it already ends that way. *)
Theorem downloadImage_corrects_extension files url stem ext buffer e :
  download url = Return buffer ->
  imageExtension buffer = Some e ->
  ext <> EmptyString -> includes ext "." = false ->
  downloadTo files url (stem +:+ "." +:+ ext)
  = (Return (stem +:+ e), <[stem +:+ e := buffer]> files) /\
  endsWith (stem +:+ e) e = true /\
  (stem +:+ e = stem +:+ "." +:+ ext <-> e = "." +:+ ext).
Proof.
  intros Hd He Hne Hnd. unfold downloadImage. rewrite Hd.
  unfold imageExtension in He. split_and!.
  - destruct (isJPEG buffer); [| destruct (isPNG buffer); [| destruct (isGIF buffer)]];
      cbn [negb andb]; rewrite ?andb_false_r; cbn [andb];
      try (injection He as <-; by rewrite replace_extension_app);
      done.
  - apply endsWith_app.
  - split; [by intros ?%(inj _) | by intros ->].
Qed.

End DownloadFacts.

Lemma downloadImage_validates_witness :
  exists buffer,
    (fun _ => Return [255; 216; 255; 224]%N) "https://i.redd.it/cat.png" = Return buffer /\
    (downloadImage (fun _ => Return [255; 216; 255; 224]%N) (fun _ => EmptyString) ∅
       "https://i.redd.it/cat.png" "/app/.temp/meme1.png").2
    = <["/app/.temp/meme1.jpg" := buffer]> ∅.
Proof.
  pose proof (downloadImage_validates (fun _ => Return [255; 216; 255; 224]%N)
                (fun _ => EmptyString) ∅ "https://i.redd.it/cat.png" "/app/.temp/meme1.png")
    as (_ & H & _).
  apply H. vm_compute. reflexivity.
Defined.

Lemma downloadImage_corrects_extension_witness :
  downloadImage (fun _ => Return [255; 216; 255; 224]%N) (fun _ => EmptyString) ∅
    "https://i.redd.it/cat.png" ("/app/.temp/meme1" +:+ "." +:+ "png")
  = (Return ("/app/.temp/meme1" +:+ ".jpg"),
     <["/app/.temp/meme1" +:+ ".jpg" := [255; 216; 255; 224]%N]> ∅) /\
  endsWith ("/app/.temp/meme1" +:+ ".jpg") ".jpg" = true /\
  ("/app/.temp/meme1" +:+ ".jpg" = "/app/.temp/meme1" +:+ "." +:+ "png"
   <-> ".jpg" = "." +:+ "png").
Proof.
  apply (downloadImage_corrects_extension (fun _ => Return [255; 216; 255; 224]%N)
           (fun _ => EmptyString) ∅ "https://i.redd.it/cat.png" "/app/.temp/meme1" "png").
  - reflexivity.
  - vm_compute. reflexivity.
  - discriminate.
  - vm_compute. reflexivity.
Defined.

(** ** The name of a produced video *)

Lemma digit_plain n :
  Ascii.eqb (digit (n mod 10)) ":" = false /\
  Ascii.eqb (digit (n mod 10)) "." = false /\
  Ascii.eqb (digit (n mod 10)) "T" = false.
Proof.
  assert (0 <= n mod 10 < 10) as H by (apply Z.mod_pos_bound; lia).
  assert (n mod 10 = 0 \/ n mod 10 = 1 \/ n mod 10 = 2 \/ n mod 10 = 3 \/ n mod 10 = 4 \/
          n mod 10 = 5 \/ n mod 10 = 6 \/ n mod 10 = 7 \/ n mod 10 = 8 \/ n mod 10 = 9)
    as Hd by lia.
  destruct Hd as [->|[->|[->|[->|[->|[->|[->|[->|[->| ->]]]]]]]]]; by vm_compute.
Qed.

Lemma digit_kept n :
  (if Ascii.eqb (digit (n mod 10)) ":" || Ascii.eqb (digit (n mod 10)) "."
   then "-"%char else digit (n mod 10)) = digit (n mod 10).
Proof. destruct (digit_plain n) as (-> & -> & _). done. Qed.

Lemma digit_not_T n : Ascii.eqb (digit (n mod 10)) "T" = false.
Proof. apply digit_plain. Qed.

(** The time stamp in the name, for a year of four digits. *)
Lemma timestamp_fields t :
  0 <= YearFromTime t <= 9999 ->
  timestamp t =
    digits 4 (YearFromTime t) +:+ "-" +:+ digits 2 (MonthFromTime t + 1)
    +:+ "-" +:+ digits 2 (DateFromTime t)
    +:+ "_" +:+ digits 2 (HourFromTime t)
    +:+ "-" +:+ digits 2 (MinFromTime t)
    +:+ "-" +:+ digits 2 (SecFromTime t).
Proof.
  intros Hy. unfold timestamp, toISOString.
  assert ((0 <=? YearFromTime t) && (YearFromTime t <=? 9999) = true) as ->.
  { apply andb_true_iff. split; apply Z.leb_le; lia. }
  generalize (YearFromTime t) (MonthFromTime t + 1) (DateFromTime t) (HourFromTime t)
    (MinFromTime t) (SecFromTime t) (msFromTime t).
  intros y mo d h mi sec ms.
  cbv [digits String.append replace_colons_dots].
  rewrite !digit_kept.
  cbv [Ascii.eqb Bool.eqb orb].
  cbv [replace_first_T]. rewrite !digit_not_T.
  cbv [Ascii.eqb Bool.eqb]. reflexivity.
Qed.

Lemma same_second_fields t t' :
  t / msPerSecond = t' / msPerSecond ->
  Day t = Day t' /\ HourFromTime t = HourFromTime t' /\
  MinFromTime t = MinFromTime t' /\ SecFromTime t = SecFromTime t'.
Proof.
  unfold Day, HourFromTime, MinFromTime, SecFromTime,
    msPerDay, msPerHour, msPerMinute, msPerSecond.
  intros H.
  change 86400000 with (1000 * 86400). change 3600000 with (1000 * 3600).
  change 60000 with (1000 * 60).
  rewrite <- !Z.div_div by lia. by rewrite H.
Qed.

(** A video is written as [meme_video_YYYY-MM-DD_HH-MM-SS.mp4], the date and
    time being those of UTC at the moment of naming (years 0 to 9999); so two
    videos named within the same second get the same path. *)
Theorem output_name_by_second dirname t t' :
  0 <= YearFromTime t <= 9999 ->
  t / msPerSecond = t' / msPerSecond ->
  outputName t =
    "meme_video_"
    +:+ (digits 4 (YearFromTime t) +:+ "-" +:+ digits 2 (MonthFromTime t + 1)
         +:+ "-" +:+ digits 2 (DateFromTime t)
         +:+ "_" +:+ digits 2 (HourFromTime t)
         +:+ "-" +:+ digits 2 (MinFromTime t)
         +:+ "-" +:+ digits 2 (SecFromTime t))
    +:+ ".mp4" /\
  outputPath dirname t' = outputPath dirname t.
Proof.
  intros Hy Hs.
  destruct (same_second_fields t t' Hs) as (Hd & Hh & Hm & Hsec).
  assert (YearFromTime t' = YearFromTime t) as Hyear.
  { unfold YearFromTime. by rewrite Hd. }
  assert (MonthFromTime t' = MonthFromTime t /\ DateFromTime t' = DateFromTime t)
    as [Hmo Hda].
  { unfold DateFromTime, MonthFromTime, DayWithinYear, InLeapYear.
    by rewrite Hyear, Hd. }
  unfold outputPath, outputName. rewrite (timestamp_fields t Hy).
  split; [done |].
  rewrite (timestamp_fields t') by (by rewrite Hyear).
  by rewrite Hyear, Hmo, Hda, Hh, Hm, Hsec.
Qed.

Lemma output_name_by_second_witness :
  outputName (at_1500 + 1234) =
    "meme_video_"
    +:+ (digits 4 (YearFromTime (at_1500 + 1234)) +:+ "-"
         +:+ digits 2 (MonthFromTime (at_1500 + 1234) + 1)
         +:+ "-" +:+ digits 2 (DateFromTime (at_1500 + 1234))
         +:+ "_" +:+ digits 2 (HourFromTime (at_1500 + 1234))
         +:+ "-" +:+ digits 2 (MinFromTime (at_1500 + 1234))
         +:+ "-" +:+ digits 2 (SecFromTime (at_1500 + 1234)))
    +:+ ".mp4" /\
  outputPath demoDir (at_1500 + 1999) = outputPath demoDir (at_1500 + 1234).
Proof.
  apply (output_name_by_second demoDir (at_1500 + 1234) (at_1500 + 1999)).
  - vm_compute. split; discriminate.
  - vm_compute. reflexivity.
Defined.

Example output_name_example :
  outputName (at_1500 + 1234) = "meme_video_2024-01-15_15-00-01.mp4".
Proof. vm_compute. reflexivity. Qed.

Section ProducedVideo.

Variable dirname : string.

Abbreviation pendingOf := (getPendingVideos dirname).

Lemma outputName_mp4 now : endsWith (outputName now) ".mp4" = true.
Proof.
  unfold outputName. rewrite <- string_app_assoc. apply endsWith_app.
Qed.

Lemma outputName_not_hidden now : hidden (outputName now) = false.
Proof. reflexivity. Qed.

(** A video that generateSingleVideo has written, and that is newer than
    every other entry of the output directory, is in the pending list, under
    the path it was written to, and comes after every other pending video:
    it is uploaded last and gets the latest slot. *)
Theorem produced_video_queued_last (entries : gmap string Z) now m :
  (forall name m', entries !! name = Some m' -> m' < m) ->
  exists i,
    pendingOf (Present (<[outputName now := m]> entries)) !! i
      = Some (outputPath dirname now) /\
    forall j other,
      pendingOf (Present (<[outputName now := m]> entries)) !! j = Some other ->
      other <> outputPath dirname now -> (j < i)%nat.
Proof.
  intros Hnew. set (s := Present (<[outputName now := m]> entries)).
  assert (outputPath dirname now ∈ pendingOf s) as Hin.
  { apply elem_of_getPendingVideos. exists (outputName now).
    split_and!; [done | apply outputName_mp4 |].
    rewrite lookup_insert_eq. by eexists. }
  apply list_elem_of_lookup_1 in Hin as [i Hi]. exists i. split; [done |].
  intros j other Hj Hne.
  destruct (Nat.lt_trichotomy j i) as [Hlt | [-> | Hgt]]; [done | congruence |].
  exfalso.
  pose proof (getPendingVideos_oldest_first dirname s) as Hs.
  pose proof (StronglySorted_lookup_lt _ _ _ _ _ _ Hs Hgt Hi Hj) as Hle.
  cbv beta in Hle.
  apply list_elem_of_lookup_2, elem_of_getPendingVideos in Hj
    as (name & -> & _ & [m' Hm']).
  assert (name <> outputName now) as Hname by (by intros ->).
  unfold outputPath, s in Hle.
  rewrite (statSync_mtime_artifact dirname _ (outputName now) m) in Hle
    by apply lookup_insert_eq.
  rewrite (statSync_mtime_artifact dirname _ name m') in Hle by done.
  rewrite lookup_insert_ne in Hm' by done.
  specialize (Hnew name m' Hm'). lia.
Qed.

End ProducedVideo.

Lemma produced_video_queued_last_witness :
  exists i,
    getPendingVideos demoDir
      (Present (<[outputName at_1500 := 9]>
                  (<["a.mp4" := 1]> (<["b.mp4" := 2]> (<["c.mp4" := 3]> ∅))))) !! i
      = Some (outputPath demoDir at_1500) /\
    forall j other,
      getPendingVideos demoDir
        (Present (<[outputName at_1500 := 9]>
                    (<["a.mp4" := 1]> (<["b.mp4" := 2]> (<["c.mp4" := 3]> ∅))))) !! j
        = Some other ->
      other <> outputPath demoDir at_1500 -> (j < i)%nat.
Proof.
  apply (produced_video_queued_last demoDir
           (<["a.mp4" := 1]> (<["b.mp4" := 2]> (<["c.mp4" := 3]> ∅))) at_1500 9).
  intros name m'.
  rewrite !lookup_insert_Some, lookup_empty.
  intros [[_ <-] | [_ [[_ <-] | [_ [[_ <-] | [_ [=]]]]]]]; lia.
Defined.

(** ** The metadata of an upload *)

Section MetadataFacts.

Import Uploader.

Variable pick : nat -> nat.

Lemma titleOptions_shape t :
  t ∈ titleOptions ->
  exists stem, t = stem ++ u " #Shorts" /\ (length stem <= 70)%nat.
Proof.
  unfold titleOptions. rewrite !elem_of_cons, elem_of_nil.
  intros [-> | [-> | [-> | [-> | [-> | [-> | [-> | [-> | []]]]]]]]].
  - exists (u "Daily Dose of Internet Memes"). split; [done | vm_compute; lia].
  - exists (u "Memes That Hit Different " ++ [55357; 56834]%N).
    split; [done | vm_compute; lia].
  - exists (u "Try Not To Laugh Challenge"). split; [done | vm_compute; lia].
  - exists (u "Funniest Memes of the Day"). split; [done | vm_compute; lia].
  - exists (u "Meme Compilation That Will Make You Laugh").
    split; [done | vm_compute; lia].
  - exists (u "Best Memes To Cure Your Boredom"). split; [done | vm_compute; lia].
  - exists (u "Viral Memes You Need To See"). split; [done | vm_compute; lia].
  - exists (u "When The Memes Are Too Relatable"). split; [done | vm_compute; lia].
Qed.

(** generateMetadata always gives a title: at most 70 code units followed by
    [ #Shorts], so within the 100 that YouTube allows; it is the first meme
    title cut to 70 when that title is longer than 10.  A truthy publishAt
    makes the video private whatever privacy was asked for, and is passed on;
    without it the requested privacy stands and no publishAt is set. *)
Theorem metadata_title_and_status opts :
  (pick (length titleOptions) < length titleOptions)%nat ->
  (exists stem,
     title (meta_snippet (generateMetadata pick opts)) = Some (stem ++ u " #Shorts") /\
     (length stem <= 70)%nat /\
     (length (stem ++ u " #Shorts") <= 100)%nat /\
     forall first rest,
       memeTitles opts = Some (first :: rest) -> (10 < length first)%nat ->
       stem = take 70 first) /\
  (truthy (publishAt opts) = true ->
     status_privacyStatus (meta_status (generateMetadata pick opts)) = u "private" /\
     status_publishAt (meta_status (generateMetadata pick opts)) = publishAt opts) /\
  (truthy (publishAt opts) = false ->
     status_privacyStatus (meta_status (generateMetadata pick opts))
       = default (u "private") (privacyStatus opts) /\
     status_publishAt (meta_status (generateMetadata pick opts)) = None).
Proof.
  intros Hpick.
  assert (forall stem, (length stem <= 70)%nat ->
            (length (stem ++ u " #Shorts") <= 100)%nat) as Hlen.
  { intros stem H. rewrite length_app. change (length (u " #Shorts")) with 8%nat. lia. }
  assert (exists stem, titleOptions !! pick (length titleOptions)
                       = Some (stem ++ u " #Shorts") /\ (length stem <= 70)%nat)
    as (stem0 & Hopt & Hstem0).
  { destruct (lookup_lt_is_Some_2 titleOptions _ Hpick) as [t Ht].
    destruct (titleOptions_shape t) as (stem & -> & Hs);
      [by eapply list_elem_of_lookup_2 |].
    by exists stem. }
  split_and!.
  - assert (title (meta_snippet (generateMetadata pick opts)) =
            match default [] (memeTitles opts) with
            | first :: _ =>
                if (10 <? length first)%nat then Some (take 70 first ++ u " #Shorts")
                else titleOptions !! pick (length titleOptions)
            | [] => titleOptions !! pick (length titleOptions)
            end) as -> by reflexivity.
    destruct (memeTitles opts) as [[|first rest]|] eqn:Hm; cbv [default from_option id].
    + exists stem0. split_and!; [done | done | by apply Hlen | done].
    + destruct (10 <? length first)%nat eqn:Hlong.
      * exists (take 70 first).
        assert (length (take 70 first) <= 70)%nat by (rewrite length_take; lia).
        split_and!; [done | done | by apply Hlen | by intros ?? [= <- <-]].
      * exists stem0. split_and!; [done | done | by apply Hlen |].
        intros first' rest' [= <- <-] Hl. apply Nat.ltb_ge in Hlong. lia.
    + exists stem0. split_and!; [done | done | by apply Hlen | done].
  - intros Ht. unfold generateMetadata.
    cbn [meta_status status_privacyStatus status_publishAt]. by rewrite Ht.
  - intros Ht. unfold generateMetadata.
    cbn [meta_status status_privacyStatus status_publishAt]. by rewrite Ht.
Qed.

End MetadataFacts.

Lemma metadata_title_and_status_witness :
  (exists stem,
     Uploader.title (Uploader.meta_snippet (Uploader.generateMetadata demoPick demoOptions))
       = Some (stem ++ Uploader.u " #Shorts") /\
     (length stem <= 70)%nat /\
     (length (stem ++ Uploader.u " #Shorts") <= 100)%nat /\
     forall first rest,
       Uploader.memeTitles demoOptions = Some (first :: rest) ->
       (10 < length first)%nat ->
       stem = take 70 first) /\
  (Uploader.truthy (Uploader.publishAt demoOptions) = true ->
     Uploader.status_privacyStatus
       (Uploader.meta_status (Uploader.generateMetadata demoPick demoOptions))
       = Uploader.u "private" /\
     Uploader.status_publishAt
       (Uploader.meta_status (Uploader.generateMetadata demoPick demoOptions))
       = Uploader.publishAt demoOptions) /\
  (Uploader.truthy (Uploader.publishAt demoOptions) = false ->
     Uploader.status_privacyStatus
       (Uploader.meta_status (Uploader.generateMetadata demoPick demoOptions))
       = default (Uploader.u "private") (Uploader.privacyStatus demoOptions) /\
     Uploader.status_publishAt
       (Uploader.meta_status (Uploader.generateMetadata demoPick demoOptions))
       = None).
Proof.
  apply (metadata_title_and_status demoPick demoOptions).
  vm_compute. lia.
Defined.
